(** * Scorito Klassiekerspel 2026: scoring model, roster selector, captaincy

    A shallow embedding of [optimizer.py] and of the catalogs of
    [pcs_scraper.py].  Python floats are IEEE binary64 values and are
    modelled by Rocq's primitive floats, so every arithmetic step below is
    the one the interpreter performs.  Integer columns are [Z]. *)

From Stdlib Require Import String.
From Stdlib Require Import ZArith List Bool Lia QArith Lqa.
From Stdlib Require Import Permutation Sorted.
From Stdlib Require Import Floats.
Import ListNotations.

Set Warnings "-inexact-float".

Local Open Scope Z_scope.

(** ** Numbers *)

(** An integer cell used in float arithmetic ([numpy.int64] to [float64]):
    the nearest double, for every integer of magnitude below 2^63 (all of
    [int64] but its least value). *)
Definition Z2F (z : Z) : float :=
  if z <? 0 then PrimFloat.opp (PrimFloat.of_uint63 (Uint63.of_Z (- z)))
  else PrimFloat.of_uint63 (Uint63.of_Z z).

(** The rational number a finite double denotes (0 for the infinities and
    NaN; the scoring model produces neither). *)
Definition F2Q (f : float) : Q :=
  match Prim2SF f with
  | S754_finite s m e =>
      let v := (inject_Z (Zpos m) * Qpower 2 e)%Q in
      if s then Qopp v else v
  | _ => 0%Q
  end.

(** ** pcs_scraper.py: the catalogs *)

Module Catalog.

(** Quality columns [q_<name>] of a rider row. *)
Inductive quality : Set :=
  | q_gc | q_climb | q_tt | q_sprint | q_punch | q_hill | q_cobbles.

(** Race short names, the keys of [RACE_DISPLAY_NAMES] and [RACE_QUALITY_MAP]. *)
Inductive race : Set :=
  | omloop | kuurne | paris_nice | tirreno | strade_bianche | milano_sanremo
  | brugge | e3 | gent_wevelgem | dwars | ronde_van_vlaanderen | scheldeprijs
  | paris_roubaix | brabantse_pijl | amstel | fleche_wallonne | luik.

Definition race_eqb (a b : race) : bool :=
  match a, b with
  | omloop, omloop | kuurne, kuurne | paris_nice, paris_nice
  | tirreno, tirreno | strade_bianche, strade_bianche
  | milano_sanremo, milano_sanremo | brugge, brugge | e3, e3
  | gent_wevelgem, gent_wevelgem | dwars, dwars
  | ronde_van_vlaanderen, ronde_van_vlaanderen
  | scheldeprijs, scheldeprijs | paris_roubaix, paris_roubaix
  | brabantse_pijl, brabantse_pijl | amstel, amstel
  | fleche_wallonne, fleche_wallonne | luik, luik => true
  | _, _ => false
  end.

(** [RACE_DISPLAY_NAMES]: a dict, iterated in insertion order. *)
Definition RACE_DISPLAY_NAMES : list (race * string) :=
  [ (omloop, "Omloop Het Nieuwsblad"%string);
    (kuurne, "Kuurne-Brussel-Kuurne"%string);
    (paris_nice, "Paris-Nice"%string);
    (tirreno, "Tirreno-Adriatico"%string);
    (strade_bianche, "Strade Bianche"%string);
    (milano_sanremo, "Milano-Sanremo"%string);
    (brugge, "Ronde van Brugge"%string);
    (e3, "E3 Saxo Classic"%string);
    (gent_wevelgem, "Gent-Wevelgem"%string);
    (dwars, "Dwars door Vlaanderen"%string);
    (ronde_van_vlaanderen, "Ronde van Vlaanderen"%string);
    (scheldeprijs, "Scheldeprijs"%string);
    (paris_roubaix, "Paris-Roubaix"%string);
    (brabantse_pijl, "Brabantse Pijl"%string);
    (amstel, "Amstel Gold Race"%string);
    (fleche_wallonne, "Waalse Pijl"%string);
    (luik, "Luik-Bastenaken-Luik"%string) ].

(** Iterating the dict yields its keys. *)
Definition races : list race := map fst RACE_DISPLAY_NAMES.

(** One entry of [RACE_QUALITY_MAP]. *)
Record mapping : Set := Mapping {
  primary : quality;
  secondary : option quality;
  weight : option float
}.

Definition entry (p : quality) (s : option quality) (w : float) : option mapping :=
  Some (Mapping p s (Some w)).

(** [RACE_QUALITY_MAP.get(race)]. *)
Definition RACE_QUALITY_MAP (r : race) : option mapping :=
  match r with
  | omloop => entry q_cobbles (Some q_hill) 0.7
  | kuurne => entry q_sprint (Some q_cobbles) 0.6
  | paris_nice => entry q_gc (Some q_climb) 0.3
  | tirreno => entry q_gc (Some q_climb) 0.3
  | strade_bianche => entry q_hill (Some q_punch) 0.7
  | milano_sanremo => entry q_sprint (Some q_punch) 0.6
  | brugge => entry q_sprint (Some q_cobbles) 0.4
  | e3 => entry q_cobbles (Some q_hill) 0.7
  | gent_wevelgem => entry q_sprint (Some q_cobbles) 0.6
  | dwars => entry q_cobbles (Some q_hill) 0.6
  | ronde_van_vlaanderen => entry q_cobbles (Some q_hill) 0.9
  | scheldeprijs => entry q_sprint None 0.5
  | paris_roubaix => entry q_cobbles None 0.9
  | brabantse_pijl => entry q_hill (Some q_punch) 0.5
  | amstel => entry q_hill (Some q_punch) 0.7
  | fleche_wallonne => entry q_punch (Some q_climb) 0.7
  | luik => entry q_punch (Some q_climb) 0.8
  end.

(** [KOPMAN_MULTIPLIERS[rank]]; [None] is Python's [KeyError]. *)
Definition KOPMAN_MULTIPLIERS (rank : nat) : option float :=
  match rank with
  | 1%nat => Some 3.0%float
  | 2%nat => Some 2.5%float
  | 3%nat => Some 2.0%float
  | _ => None
  end.

End Catalog.
Export Catalog.

(** ** Rows of the rider table *)

(** A row of the frame [load_enriched_data] returns (the columns the core reads). *)
Record Rider : Type := {
  market_rider_id : Z;
  name : string;
  price : Z;
  price_m : float;
  q_ : quality -> Z;
  num_races : Z;
  race_ : race -> bool
}.

(** ** Python calls that may raise *)

Inductive exn : Set := ZeroDivisionError | KeyError | IndexError.

Inductive result (A : Type) : Type :=
  | Ok (a : A)
  | Raise (e : exn).
Arguments Ok {A} a.
Arguments Raise {A} e.

Definition bind {A B : Type} (c : result A) (k : A -> result B) : result B :=
  match c with
  | Ok a => k a
  | Raise e => Raise e
  end.

Notation "x <- c ;; k" := (bind c (fun x => k))
  (at level 61, c at next level, right associativity).

Fixpoint mapM {A B : Type} (f : A -> result B) (l : list A) : result (list B) :=
  match l with
  | [] => Ok []
  | a :: l' => b <- f a ;; bs <- mapM f l' ;; Ok (b :: bs)
  end.

(** [x / y] on floats; Python raises on a zero divisor. *)
Definition truediv (x y : float) : result float :=
  if PrimFloat.eqb y 0 then Raise ZeroDivisionError else Ok (PrimFloat.div x y).

(** [d[k]] on a dict. *)
Definition getitem {K V : Type} (d : K -> option V) (k : K) : result V :=
  match d k with
  | Some v => Ok v
  | None => Raise KeyError
  end.

(** [frame.iloc[i]]. *)
Definition iloc {A : Type} (frame : list A) (i : nat) : result A :=
  match nth_error frame i with
  | Some row => Ok row
  | None => Raise IndexError
  end.

(** [enumerate(rows)]. *)
Definition enumerate {A : Type} (rows : list A) : list (nat * A) :=
  combine (seq 0 (length rows)) rows.

(** [frame.sort_values(key, ascending=False)]: rows by descending key.  The
    order pandas gives to rows with equal keys is not fixed by its
    documentation; this model keeps them in frame order. *)
Fixpoint insert_desc {A : Type} (key : A -> float) (x : A) (l : list A) : list A :=
  match l with
  | [] => [x]
  | y :: l' =>
      if PrimFloat.leb (key y) (key x) then x :: y :: l'
      else y :: insert_desc key x l'
  end.

Definition sort_values_desc {A : Type} (key : A -> float) (l : list A) : list A :=
  fold_right (insert_desc key) [] l.

(** ** optimizer.py: scoring model *)

Definition DEFAULT_BUDGET : Z := 50000000.

Local Open Scope float_scope.

(** Lines 18-43.  [row.get("race_<race>", False)] is the flag of the row;
    a quality cell is an integer, converted when it meets a float. *)
Definition calculate_race_score (row : Rider) (race : race) : float :=
  if negb (race_ row race) then 0.0
  else
    match RACE_QUALITY_MAP race with
    | None => 0.0
    | Some mapping =>
        let race_weight :=
          match weight mapping with Some w => w | None => 0.5 end in
        let primary_score := Z2F (q_ row (primary mapping)) in
        let secondary_score :=
          match secondary mapping with
          | Some s => Z2F (q_ row s)
          | None => Z2F 0
          end in
        let quality_score := primary_score * 0.7 + secondary_score * 0.3 in
        quality_score * race_weight
    end.

(** Lines 46-82: [avg_points * probability] of the tier the score falls in. *)
Definition calculate_expected_points (row : Rider) (race : race) : float :=
  let score := calculate_race_score row race in
  if score <=? 0 then 0.0
  else if 7 <=? score then 40.0 * 0.7
  else if 5 <=? score then 30.0 * 0.5
  else if 3 <=? score then 20.0 * 0.35
  else if 1.5 <=? score then 10.0 * 0.2
  else 5.0 * 0.1.

(** Lines 85-90: the loop over the keys of [RACE_DISPLAY_NAMES]. *)
Definition calculate_total_expected_points (row : Rider) : float :=
  fold_left (fun total race => total + calculate_expected_points row race)
            races 0.0.

(** Lines 93-98. *)
Definition calculate_value_score (row : Rider) : result float :=
  let expected := calculate_total_expected_points row in
  if 0 <? price_m row then truediv expected (price_m row) else Ok 0.0.

(** A row of the frame after [enrich_with_scores]: the input columns and the
    derived columns [exp_<race>], [exp_total], [value_score]. *)
Record Scored : Type := {
  rider :> Rider;
  exp_ : race -> float;
  exp_total : float;
  value_score : float
}.

(** [df[exp_cols].sum(axis=1)] for one row. *)
Definition sum_exp_cols (exp : race -> float) : float :=
  fold_left (fun acc race => acc + exp race) races 0.0.

(** Lines 101-114, for one row of the frame. *)
Definition enrich_row (row : Rider) : result Scored :=
  let exp := fun race => calculate_expected_points row race in
  v <- calculate_value_score row ;;
  Ok {| rider := row; exp_ := exp; exp_total := sum_exp_cols exp;
        value_score := v |}.

Definition enrich_with_scores (df : list Rider) : result (list Scored) :=
  mapM enrich_row df.

(** A frame handed to the selector: with or without the derived columns. *)
Inductive DataFrame : Type :=
  | Plain (rows : list Rider)
  | Enriched (rows : list Scored).

Local Close Scope float_scope.

(** ** The integer program handed to PuLP *)

Module Lp.

Inductive sense : Set := LE | EQ.

(** An affine expression: (variable index, coefficient) terms. *)
Record LpConstraint : Set := {
  terms : list (nat * Z);
  rel : sense;
  rhs : Z
}.

(** A maximisation problem over [num_vars] binary variables. *)
Record LpProblem : Set := {
  num_vars : nat;
  objective : list (nat * float);
  constraints : list LpConstraint
}.

Inductive LpStatus : Set :=
  | NotSolved | Optimal | Infeasible | Unbounded | Undefined.

(** What [prob.solve] leaves behind: a status and [varValue] per variable. *)
Record LpSolution : Set := {
  status : LpStatus;
  varValue : list float
}.

(** A 0/1 assignment to the variables. *)
Definition assignment : Set := list bool.

Definition chosen (a : assignment) (i : nat) : bool := nth i a false.

(** The value of an affine expression at an assignment. *)
Definition lhs (a : assignment) (ts : list (nat * Z)) : Z :=
  fold_right (fun t acc => (if chosen a (fst t) then snd t else 0) + acc) 0 ts.

Definition satisfiesb (a : assignment) (c : LpConstraint) : bool :=
  match rel c with
  | LE => lhs a (terms c) <=? rhs c
  | EQ => lhs a (terms c) =? rhs c
  end.

Definition feasibleb (p : LpProblem) (a : assignment) : bool :=
  Nat.eqb (length a) (num_vars p) && forallb (satisfiesb a) (constraints p).

Definition feasible (p : LpProblem) (a : assignment) : Prop :=
  feasibleb p a = true.

(** The exact value of the objective at an assignment. *)
Definition objective_value (p : LpProblem) (a : assignment) : Q :=
  fold_right (fun t acc => ((if chosen a (fst t) then F2Q (snd t) else 0) + acc)%Q)
             0%Q (objective p).

(** The [varValue] of a binary variable. *)
Definition bool_value (b : bool) : float := if b then 1.0%float else 0.0%float.

(** The solver interface ([PULP_CBC_CMD] is one implementation). *)
Class Solver : Type := solve : LpProblem -> LpSolution.

(** An exact solver: on a feasible problem it reports a feasible 0/1
    assignment of maximal objective value; otherwise it says so. *)
Class ExactSolver (S : Solver) : Prop := {
  solve_optimal :
    forall p, (exists a, feasible p a) ->
      exists a, feasible p a /\
        varValue (solve p) = map bool_value a /\
        status (solve p) = Optimal /\
        forall a', feasible p a' ->
          (objective_value p a' <= objective_value p a)%Q;
  solve_infeasible :
    forall p, (forall a, ~ feasible p a) -> status (solve p) = Infeasible
}.

End Lp.
Export Lp.

(** ** optimizer.py: roster selector *)

(** [rid in candidates["market_rider_id"].values]. *)
Definition has_id (rid : Z) (rows : list Scored) : bool :=
  existsb (fun r : Scored => market_rider_id r =? rid) rows.

(** Lines 143-152: riders with races, then locked-in riders that are missing. *)
Definition candidate_rows (df : list Scored) (locked_in : list Z) : list Scored :=
  fold_left
    (fun candidates rid =>
       if negb (has_id rid candidates)
       then candidates ++ filter (fun r : Scored => market_rider_id r =? rid) df
       else candidates)
    locked_in
    (filter (fun r : Scored => 0 <? num_races r) df).

(** [candidates[candidates["market_rider_id"] == rid].index]: positions, in order. *)
Definition index_of_id (rid : Z) (candidates : list Scored) : list nat :=
  map fst (filter (fun ir : nat * Scored => market_rider_id (snd ir) =? rid)
                 (enumerate candidates)).

(** [prob += select[idx[0]] == v], when [len(idx) > 0]. *)
Definition lock_constraints (v : Z) (candidates : list Scored) (ids : list Z)
  : list LpConstraint :=
  flat_map
    (fun rid =>
       match index_of_id rid candidates with
       | i :: _ => [ {| terms := [(i, 1)]; rel := EQ; rhs := v |} ]
       | [] => []
       end)
    ids.

(** Lines 154-184. *)
Definition build_problem (candidates : list Scored) (budget team_size : Z)
    (locked_in locked_out : list Z) : LpProblem :=
  let n := length candidates in
  {| num_vars := n;
     objective := combine (seq 0 n) (map exp_total candidates);
     constraints :=
       {| terms := map (fun i => (i, 1)) (seq 0 n); rel := EQ; rhs := team_size |}
       :: {| terms := combine (seq 0 n) (map (fun r : Scored => price r) candidates);
             rel := LE; rhs := budget |}
       :: lock_constraints 1 candidates locked_in
       ++ lock_constraints 0 candidates locked_out |}.

(** [[i for i in range(n) if select[i].varValue == 1]]. *)
Definition selected_indices (n : nat) (sol : LpSolution) : list nat :=
  filter
    (fun i =>
       match nth_error (varValue sol) i with
       | Some v => PrimFloat.eqb v 1
       | None => false
       end)
    (seq 0 n).

(** Lines 117-195.  [locked_in or []] is the list itself; the status that
    [prob.solve] returns is not looked at. *)
Definition optimize_team {S : Solver} (df : DataFrame) (budget team_size : Z)
    (locked_in locked_out : list Z) : result (list Scored) :=
  df <- match df with
        | Plain rows => enrich_with_scores rows
        | Enriched rows => Ok rows
        end ;;
  let candidates := candidate_rows df locked_in in
  let prob := build_problem candidates budget team_size locked_in locked_out in
  let sol := solve prob in
  let n := length candidates in
  team <- mapM (iloc candidates) (selected_indices n sol) ;;
  Ok (sort_values_desc exp_total team).

(** ** optimizer.py: captaincy strategist *)

(** One dict of the lists [calculate_kopman_strategy] builds. *)
Record KopmanEntry : Set := {
  rank : nat;
  rider_name : string;
  rider_id : Z;
  multiplier : float;
  base_points : float;
  boosted_points : float
}.

(** Lines 223-237: the first three rows, with their multipliers. *)
Fixpoint kopmannen_loop (exp : Scored -> float) (items : list (nat * Scored))
  : result (list KopmanEntry) :=
  match items with
  | [] => Ok []
  | (i, rider) :: rest =>
      if Nat.leb 3 i then Ok []
      else
        let rank := (i + 1)%nat in
        multiplier <- getitem KOPMAN_MULTIPLIERS rank ;;
        let base_pts := exp rider in
        more <- kopmannen_loop exp rest ;;
        Ok ({| rank := rank; rider_name := name rider;
               rider_id := market_rider_id rider;
               multiplier := multiplier; base_points := base_pts;
               boosted_points := PrimFloat.mul base_pts multiplier |} :: more)
  end.

(** Lines 240-251: the rows after the third, unboosted. *)
Fixpoint remaining_loop (exp : Scored -> float) (items : list (nat * Scored))
  : list KopmanEntry :=
  match items with
  | [] => []
  | (i, rider) :: rest =>
      if Nat.ltb i 3 then remaining_loop exp rest
      else
        {| rank := (i + 1)%nat; rider_name := name rider;
           rider_id := market_rider_id rider;
           multiplier := 1.0%float; base_points := exp rider;
           boosted_points := exp rider |} :: remaining_loop exp rest
  end.

(** The body of the loop over races: [strategy[race]].  A frame of [Scored]
    rows has every [exp_<race>] column, so the [continue] of line 212 is
    never taken. *)
Definition race_strategy (team : list Scored) (race : race)
  : result (list KopmanEntry) :=
  let racing := filter (fun r : Scored => race_ r race) team in
  if Nat.eqb (List.length racing) 0 then Ok []
  else
    let racing := sort_values_desc (fun r : Scored => exp_ r race) racing in
    kopmannen <- kopmannen_loop (fun r => exp_ r race) (enumerate racing) ;;
    let remaining := remaining_loop (fun r => exp_ r race) (enumerate racing) in
    Ok (kopmannen ++ remaining).

(** The strategy dict, in insertion order. *)
Definition calculate_kopman_strategy (team : list Scored)
  : result (list (race * list KopmanEntry)) :=
  mapM (fun race => riders <- race_strategy team race ;; Ok (race, riders)) races.

(** [strategy.get(race)]. *)
Definition strategy_get (strategy : list (race * list KopmanEntry)) (r : race)
  : option (list KopmanEntry) :=
  option_map snd (find (fun item => race_eqb (fst item) r) strategy).

(** The inner loop of [calculate_team_total_with_kopmannen]. *)
Definition add_boosted (total : float) (riders : list KopmanEntry) : float :=
  fold_left (fun total rider => PrimFloat.add total (boosted_points rider))
            riders total.

Definition calculate_team_total_with_kopmannen (team : list Scored)
    (strategy : list (race * list KopmanEntry)) : float :=
  fold_left (fun total item => add_boosted total (snd item)) strategy 0.0%float.

(** [team["exp_total"].sum()]. *)
Definition total_without (team : list Scored) : float :=
  fold_left (fun acc r => PrimFloat.add acc (exp_total r)) team 0.0%float.

(** The [kopman_bonus] entry of [get_team_summary]. *)
Definition kopman_bonus (team : list Scored)
    (strategy : list (race * list KopmanEntry)) : float :=
  PrimFloat.sub (calculate_team_total_with_kopmannen team strategy)
                (total_without team).

(** ** A reference exact solver *)

(** Exhaustive search over the 0/1 assignments: the contract of an exact
    solver made executable, used to run the selector on small tables.  On a
    program without a feasible assignment it reports every variable at 0;
    what CBC leaves in the variables there is not modelled. *)
Module Exhaustive.

Fixpoint all_assignments (n : nat) : list assignment :=
  match n with
  | O => [[]]
  | S n' => flat_map (fun a => [false :: a; true :: a]) (all_assignments n')
  end.

Fixpoint argmax (p : LpProblem) (best : assignment) (rest : list assignment)
  : assignment :=
  match rest with
  | [] => best
  | a :: rest' =>
      argmax p
        (if Qle_bool (objective_value p a) (objective_value p best)
         then best else a)
        rest'
  end.

Definition exhaustive_solve (p : LpProblem) : LpSolution :=
  match filter (feasibleb p) (all_assignments (num_vars p)) with
  | [] => {| status := Infeasible;
             varValue := repeat 0.0%float (num_vars p) |}
  | a :: rest => {| status := Optimal;
                    varValue := map bool_value (argmax p a rest) |}
  end.

#[export] Instance solver : Solver := exhaustive_solve.

End Exhaustive.

(** ** Vocabulary of the design *)

Definition Zsum (l : list Z) : Z := fold_right Z.add 0%Z l.

Definition Qsum (l : list Q) : Q := fold_right Qplus 0%Q l.

(** The rows a 0/1 assignment picks. *)
Fixpoint pick {A : Type} (a : assignment) (l : list A) : list A :=
  match a, l with
  | b :: a', x :: l' => if b then x :: pick a' l' else pick a' l'
  | _, _ => []
  end.

(** The [market_rider_id] column. *)
Definition ids (rows : list Scored) : list Z :=
  map (fun r : Scored => market_rider_id r) rows.

(** What the design asks of a roster. *)
Definition roster_ok (budget team_size : Z) (locked_in locked_out : list Z)
    (team : list Scored) : Prop :=
  Z.of_nat (List.length team) = team_size /\
  Zsum (map (fun r : Scored => price r) team) <= budget /\
  (forall rid, In rid locked_in -> In rid (ids team)) /\
  (forall rid, In rid locked_out -> ~ In rid (ids team)).

(** The objective: the exact sum of the [exp_total] column. *)
Definition total_points (team : list Scored) : Q :=
  Qsum (map (fun r : Scored => F2Q (exp_total r)) team).

(** The frame after the [if "exp_total" not in df.columns] step. *)
Definition frame_rows (df : DataFrame) : result (list Scored) :=
  match df with
  | Plain rows => enrich_with_scores rows
  | Enriched rows => Ok rows
  end.

(** The assignment [optimize_team] reads off the solution. *)
Definition selection_mask (n : nat) (sol : LpSolution) : assignment :=
  map
    (fun i =>
       match nth_error (varValue sol) i with
       | Some v => PrimFloat.eqb v 1
       | None => false
       end)
    (seq 0 n).

(** One step of the loop that adds locked-in riders back. *)
Definition add_locked (df : list Scored) (candidates : list Scored) (rid : Z)
  : list Scored :=
  if negb (has_id rid candidates)
  then candidates ++ filter (fun r : Scored => market_rider_id r =? rid) df
  else candidates.

(** The requests the design calls infeasible. *)
Definition infeasible_request (rows : list Scored) (budget team_size : Z)
    (locked_in locked_out : list Z) : Prop :=
  (exists rid, In rid locked_in /\ In rid locked_out) \/
  team_size < Z.of_nat (List.length locked_in) \/
  budget < Zsum (map (fun r : Scored => price r)
                     (filter (fun r : Scored => existsb (Z.eqb (market_rider_id r)) locked_in)
                             rows)) \/
  team_size = 0 \/
  candidate_rows rows locked_in = [] \/
  (forall other,
     incl other (candidate_rows rows locked_in) -> NoDup (ids other) ->
     Z.of_nat (List.length other) = team_size ->
     budget < Zsum (map (fun r : Scored => price r) other)).

(** The columns a roster carries are the ones the scoring model writes. *)
Definition scored_by_model (s : Scored) : Prop :=
  forall race, exp_ s race = calculate_expected_points s race.

(** The participating riders of a race, best first. *)
Definition ranked (team : list Scored) (race : race) : list Scored :=
  sort_values_desc (fun r : Scored => exp_ r race)
                   (filter (fun r : Scored => race_ r race) team).

(** The values a quality cell takes. *)
Definition grid : list Z := [0; 1; 2; 3; 4; 5; 6; 7; 8; 9; 10]%Z.

(** The six values of the step function, in half points. *)
Definition half_tiers : list Z := [0; 1; 4; 14; 30; 56]%Z.

Definition Zrange (n : nat) : list Z := map Z.of_nat (seq 0 n).

(** A term of an affine expression, moved one variable up. *)
Definition shift_term {B : Type} (t : nat * B) : nat * B := (S (fst t), snd t).

(** The objective over a dense coefficient list. *)
Definition qlhs a (ts : list (nat * float)) : Q :=
  fold_right
    (fun t acc => ((if chosen a (fst t) then F2Q (snd t) else 0) + acc)%Q)
    0%Q ts.

Section FloatVocabulary.

Local Open Scope float_scope.

(** The six values of the step function. *)
Definition tiers : list float := [0.0; 0.5; 2.0; 7.0; 15.0; 28.0].

(** The raw score as the design states it: weighted quality times event weight. *)
Definition weighted_quality (row : Rider) (m : mapping) : float :=
  Z2F (q_ row (primary m)) * 0.7
  + match secondary m with Some s => Z2F (q_ row s) | None => 0 end * 0.3.

(** [mapping.get("weight", 0.5)]. *)
Definition event_weight (m : mapping) : float :=
  match weight m with Some w => w | None => 0.5 end.

(** The design's [race_score] of a rider who starts. *)
Definition race_score_of (row : Rider) (race : race) : float :=
  match RACE_QUALITY_MAP race with
  | Some m => weighted_quality row m * event_weight m
  | None => 0
  end.

(** The multiplier the design gives to a rank. *)
Definition rank_multiplier (rank : nat) : float :=
  match rank with
  | 1%nat => 3.0
  | 2%nat => 2.5
  | 3%nat => 2.0
  | _ => 1.0
  end.

(** Descending order of the event's projected points. *)
Definition descending (key : Scored -> float) (a b : Scored) : Prop :=
  (key b <=? key a) = true.

(** The entry the two loops write for the rider at position [i]. *)
Definition entry_at (exp : Scored -> float) (ir : nat * Scored) : KopmanEntry :=
  {| rank := (fst ir + 1)%nat;
     rider_name := name (snd ir);
     rider_id := market_rider_id (snd ir);
     multiplier := rank_multiplier (fst ir + 1);
     base_points := exp (snd ir);
     boosted_points :=
       if Nat.ltb (fst ir) 3
       then exp (snd ir) * rank_multiplier (fst ir + 1)
       else exp (snd ir) |}.

(** The raw score on a primary value, a secondary value and a weight. *)
Definition score_formula (p s : Z) (w : float) : float :=
  (Z2F p * 0.7 + Z2F s * 0.3) * w.

(** Every catalog weight, on every pair of quality values, within [lo, hi]. *)
Definition scores_within (lo hi : float) : bool :=
  forallb
    (fun race =>
       match RACE_QUALITY_MAP race with
       | Some m =>
           forallb
             (fun p =>
                forallb
                  (fun s =>
                     (lo <=? score_formula p s (event_weight m))
                     && (score_formula p s (event_weight m) <=? hi))
                  grid)
             grid
       | None => true
       end)
    races.

(** Projected points counted in half points. *)
Definition half (k : Z) : float := Z2F k * 0.5.

(** The step function, in half points. *)
Definition half_points (score : float) : Z :=
  if score <=? 0 then 0
  else if 7 <=? score then 56
  else if 5 <=? score then 30
  else if 3 <=? score then 14
  else if 1.5 <=? score then 4
  else 1.

(** Adding a tier value to a running total of at most 17 events is exact. *)
Definition sums_exact : bool :=
  forallb
    (fun k =>
       forallb (fun t => Leibniz.eqb (half k + half t) (half (k + t))) half_tiers)
    (Zrange 897).

(** A count of half points, as a double, denotes that many halves. *)
Definition halves_denote : bool :=
  forallb (fun k => Qeq_bool (F2Q (half k)) (k # 2)) (Zrange 953).

End FloatVocabulary.

(** ** Example tables *)

Module Examples.

Definition all_races (_ : race) : bool := true.
Definition no_race (_ : race) : bool := false.

(** A rider rated 10 on every quality, entered everywhere. *)
Definition flandrien : Rider :=
  {| market_rider_id := 1; name := "Flandrien"%string;
     price := 7000000; price_m := 7.0%float;
     q_ := fun _ => 10; num_races := 17; race_ := all_races |}.

End Examples.

Module Tables.
Import Examples.

Definition row (id : Z) (cost : Z) (races : Z) (total : float) : Scored :=
  {| rider := {| market_rider_id := id; name := "rider"%string;
                 price := cost; price_m := (Z2F cost / 1000000)%float;
                 q_ := fun _ => 5; num_races := races;
                 race_ := if 0 <? races then all_races else no_race |};
     exp_ := fun _ => 0.0%float;
     exp_total := total;
     value_score := 0.0%float |}.

(** Three riders priced 30M / 15M / 10M with 50 / 30 / 15 projected points. *)
Definition trio : list Scored :=
  [ row 1 30000000 5 50.0; row 2 15000000 4 30.0; row 3 10000000 3 15.0 ].

End Tables.

Module Squad.
Import Examples.

Definition cobbled (r : race) : bool :=
  match r with
  | omloop | e3 | ronde_van_vlaanderen | paris_roubaix => true
  | _ => false
  end.

Definition classics_rider (id cobbles hill : Z) : Rider :=
  {| market_rider_id := id; name := "rider"%string;
     price := 2000000; price_m := 2.0%float;
     q_ := fun q => match q with
                    | q_cobbles => cobbles
                    | q_hill => hill
                    | _ => 0
                    end;
     num_races := 4; race_ := cobbled |}.

(** The row [enrich_with_scores] writes for a rider. *)
Definition scored (r : Rider) : Scored :=
  {| rider := r;
     exp_ := calculate_expected_points r;
     exp_total := calculate_total_expected_points r;
     value_score :=
       match calculate_value_score r with Ok v => v | Raise _ => 0.0%float end |}.

(** Five riders on the cobbles; riders 12 and 13 are rated alike. *)
Definition squad : list Scored :=
  map scored
      [ classics_rider 11 6 4; classics_rider 12 10 10; classics_rider 13 10 10;
        classics_rider 14 2 2; classics_rider 15 8 8 ].

(** A table with a rider entered nowhere. *)
Definition reserve : Rider :=
  {| market_rider_id := 2; name := "reserve"%string;
     price := 500000; price_m := 0.5%float;
     q_ := fun _ => 9; num_races := 0; race_ := no_race |}.

Definition peloton : list Rider :=
  [ flandrien; reserve; classics_rider 3 8 8 ].

(** A rider of the Ardennes, rated on hill and punch. *)
Definition puncheur (id hill punch : Z) : Rider :=
  {| market_rider_id := id; name := "puncheur"%string;
     price := 1500000; price_m := 1.5%float;
     q_ := fun q => match q with
                    | q_hill => hill
                    | q_punch => punch
                    | _ => 0
                    end;
     num_races := 17; race_ := all_races |}.

End Squad.

(** * The rest of the pipeline *)

(** ** pcs_scraper.py: helpers on a row *)

(** Lines 129-135: the races a rider is entered in, in catalog order. *)
Definition get_rider_races (row : Rider) : list race :=
  filter (fun short_name => race_ row short_name) races.

(** Lines 138-141. *)
Definition get_quality_score (row : Rider) (quality : quality) : Z :=
  q_ row quality.

(** ** Grids of ratings *)

(** The cell of the secondary quality of an event, 0 when it has none. *)
Definition secondary_cell (row : Rider) (m : mapping) : Z :=
  match secondary m with
  | Some s => q_ row s
  | None => 0
  end.

(** The step function on a pair of ratings, in half points. *)
Definition grid_points (m : mapping) (p s : Z) : Z :=
  half_points (score_formula p s (event_weight m)).

(** Every event, on every pair of ratings of the scale. *)
Definition on_grid (check : mapping -> Z -> Z -> bool) : bool :=
  forallb
    (fun race =>
       match RACE_QUALITY_MAP race with
       | Some m => forallb (fun p => forallb (fun s => check m p s) grid) grid
       | None => true
       end)
    races.

(** Higher ratings never fall in a lower tier. *)
Definition grid_monotone : bool :=
  on_grid
    (fun m p s =>
       forallb
         (fun p' =>
            forallb
              (fun s' =>
                 negb ((p <=? p') && (s <=? s'))
                 || (grid_points m p s <=? grid_points m p' s'))
              grid)
         grid).

(** Zero points exactly at two zero ratings. *)
Definition grid_zero : bool :=
  on_grid
    (fun m p s =>
       Bool.eqb (grid_points m p s =? 0) ((p =? 0) && (s =? 0))).

(** The most an event can yield on the scale: the points of a rider rated
    10 on both of its qualities. *)
Definition event_cap (race : race) : Z :=
  match RACE_QUALITY_MAP race with
  | Some m => grid_points m 10 (match secondary m with Some _ => 10 | None => 0 end)
  | None => 0
  end.

(** A season total of at most 628 half points is at most 314 points. *)
Definition season_within : bool :=
  forallb (fun k => PrimFloat.leb (half k) 314%float) (Zrange 629).

(** ** optimizer.py: team summary *)

Module Summary.

(** The dict [get_team_summary] returns, without [total_cost_m] (a sum of
    doubles whose grouping pandas chooses) and [type_distribution] (the
    [type] column is not among the columns modelled). *)
Record t : Set := {
  team_size : nat;
  total_cost : Z;
  budget_remaining : Z;
  budget_remaining_m : float;
  exp_points_without_kopman : float;
  exp_points_with_kopman : float;
  kopman_bonus : float;
  avg_races_per_rider : float
}.

End Summary.

(** [team["price"].sum()]. *)
Definition price_sum (team : list Scored) : Z :=
  Zsum (map (fun r : Scored => price r) team).

(** [team["num_races"].mean()]: NaN on an empty frame. *)
Definition num_races_mean (team : list Scored) : float :=
  PrimFloat.div (Z2F (Zsum (map (fun r : Scored => num_races r) team)))
                (Z2F (Z.of_nat (List.length team))).

(** Lines 271-287. *)
Definition get_team_summary (team : list Scored)
    (strategy : list (race * list KopmanEntry)) : Summary.t :=
  let total_with_kopman := calculate_team_total_with_kopmannen team strategy in
  let total_without := total_without team in
  {| Summary.team_size := List.length team;
     Summary.total_cost := price_sum team;
     Summary.budget_remaining := DEFAULT_BUDGET - price_sum team;
     Summary.budget_remaining_m :=
       PrimFloat.div (Z2F (DEFAULT_BUDGET - price_sum team)) 1000000;
     Summary.exp_points_without_kopman := total_without;
     Summary.exp_points_with_kopman := total_with_kopman;
     Summary.kopman_bonus := PrimFloat.sub total_with_kopman total_without;
     Summary.avg_races_per_rider := num_races_mean team |}.

(** ** api/optimize.py: the handler after the query is parsed *)

(** Lines 41-44: [team_size] is left at its default of 20. *)
Definition optimize_endpoint {S : Solver} (df : list Scored) (budget : Z)
    (locked_in locked_out : list Z)
  : result (list Scored * list (race * list KopmanEntry) * Summary.t) :=
  team <- optimize_team (Enriched df) budget 20 locked_in locked_out ;;
  strategy <- calculate_kopman_strategy team ;;
  Ok (team, strategy, get_team_summary team strategy).

(** A value that is not NaN. *)
Definition not_nan (x : float) : Prop := PrimFloat.leb x x = true.

(** ** pcs_scraper.py: the frame [load_enriched_data] builds *)

(** A row of the sheet [read_excel] returns (the cells behind the columns
    modelled).  A race cell is absent when the sheet lacks the column. *)
Record RawRow : Type := {
  MarketRiderId : Z;
  FirstName : string;
  LastName : string;
  Price : Z;
  Scorito : quality -> Z;
  Races : Z;
  race_cell : race -> option float
}.

(** Lines 98-120: [r.get(excel_col, 0) == 1.0] is the flag of a race. *)
Definition clean_row (r : RawRow) : Rider :=
  {| market_rider_id := MarketRiderId r;
     name := (FirstName r ++ " " ++ LastName r)%string;
     price := Price r;
     price_m := PrimFloat.div (Z2F (Price r)) 1000000;
     q_ := Scorito r;
     num_races := Races r;
     race_ := fun short_name =>
                match race_cell r short_name with
                | Some cell => PrimFloat.eqb cell 1
                | None => PrimFloat.eqb (Z2F 0) 1
                end |}.

(** [sort_values] on an integer column, descending; rows with equal keys
    stay in frame order in this model. *)
Fixpoint insert_desc_int {A : Type} (key : A -> Z) (x : A) (l : list A) : list A :=
  match l with
  | [] => [x]
  | y :: l' =>
      if key y <=? key x then x :: y :: l' else y :: insert_desc_int key x l'
  end.

Definition sort_int_desc {A : Type} (key : A -> Z) (l : list A) : list A :=
  fold_right (insert_desc_int key) [] l.

(** Lines 93-126, from the sheet read. *)
Definition load_enriched_data (raw : list RawRow) : list Rider :=
  sort_int_desc price (map clean_row raw).

(** ** scorito_api.py: the quality cells of [fetch_riders] *)

(** [QUALITY_MAP.get(type)], as the column the name stands for. *)
Definition QUALITY_MAP (q_type : Z) : option quality :=
  match q_type with
  | 0 => Some q_gc
  | 1 => Some q_climb
  | 2 => Some q_tt
  | 3 => Some q_sprint
  | 4 => Some q_punch
  | 5 => Some q_hill
  | 6 => Some q_cobbles
  | _ => None
  end.

Definition quality_eqb (a b : quality) : bool :=
  match a, b with
  | q_gc, q_gc | q_climb, q_climb | q_tt, q_tt | q_sprint, q_sprint
  | q_punch, q_punch | q_hill, q_hill | q_cobbles, q_cobbles => true
  | _, _ => false
  end.

(** [row["q_<name>"] = value]. *)
Definition set_quality (row : quality -> Z) (q : quality) (value : Z)
  : quality -> Z :=
  fun q' => if quality_eqb q' q then value else row q'.

(** Lines 109-115: every quality starts at 0; each (Type, Value) entry of a
    known type overwrites its quality. *)
Definition parse_qualities (qualities : list (Z * Z)) : quality -> Z :=
  fold_left
    (fun row q =>
       match QUALITY_MAP (fst q) with
       | Some q_name => set_quality row q_name (snd q)
       | None => row
       end)
    qualities
    (fun _ => 0).

(** The type code of a quality. *)
Definition quality_code (q : quality) : Z :=
  match q with
  | q_gc => 0 | q_climb => 1 | q_tt => 2 | q_sprint => 3
  | q_punch => 4 | q_hill => 5 | q_cobbles => 6
  end.

(** ** app.py: the session of the team builder *)

Module Builder.

(** The session entries the builder's buttons read and write: the ids
    picked by hand and the roster of the last optimisation. *)
Record Session : Type := {
  manual_team_ids : list Z;
  opt_team : option (list Scored)
}.

Definition initial : Session :=
  {| manual_team_ids := []; opt_team := None |}.

(** The buttons, with the rider or the budget they act on. *)
Inductive Click : Set :=
  | Optimaliseer (budget : Z)
  | Toevoegen (rid : Z)
  | Verwijder (rid : Z)
  | LaadOptimaal
  | Wis.

(** [rid in st.session_state["manual_team_ids"]]. *)
Definition in_team (rid : Z) (team_ids : list Z) : bool :=
  existsb (Z.eqb rid) team_ids.

(** [list.remove]: the first occurrence goes; [None] is [ValueError]. *)
Fixpoint list_remove (rid : Z) (l : list Z) : option (list Z) :=
  match l with
  | [] => None
  | x :: l' =>
      if x =? rid then Some l'
      else option_map (cons x) (list_remove rid l')
  end.

(** [df[df["market_rider_id"].isin(team_ids)]]. *)
Definition manual_team (df : list Scored) (team_ids : list Z) : list Scored :=
  filter (fun r : Scored => in_team (market_rider_id r) team_ids) df.

(** One click and the rerun it causes (lines 151-157 for the optimiser's
    button, 316-332 and 406-418 for the builder's); [None] when the page
    does not show the button (or the call behind it raises). *)
Definition step {S : Solver} (df : list Scored) (st : Session) (c : Click)
  : option Session :=
  let team_ids := manual_team_ids st in
  match c with
  | Optimaliseer budget =>
      match optimize_team (Enriched df) budget 20 [] [] with
      | Ok team => Some {| manual_team_ids := team_ids; opt_team := Some team |}
      | Raise _ => None
      end
  | Toevoegen rid =>
      if has_id rid df && negb (in_team rid team_ids)
      then Some {| manual_team_ids := team_ids ++ [rid];
                   opt_team := opt_team st |}
      else None
  | Verwijder rid =>
      if has_id rid df && in_team rid team_ids
      then option_map
             (fun l => {| manual_team_ids := l; opt_team := opt_team st |})
             (list_remove rid team_ids)
      else None
  | LaadOptimaal =>
      if Nat.ltb 0 (List.length (manual_team df team_ids))
      then match opt_team st with
           | Some team =>
               Some {| manual_team_ids :=
                         map (fun r : Scored => market_rider_id r) team;
                       opt_team := opt_team st |}
           | None => Some st
           end
      else None
  | Wis =>
      match team_ids with
      | [] => None
      | _ :: _ =>
          Some {| manual_team_ids := []; opt_team := opt_team st |}
      end
  end.

(** A sequence of clicks, from a session on. *)
Definition run {S : Solver} (df : list Scored) (st : Session)
    (clicks : list Click) : option Session :=
  fold_left
    (fun o c => match o with Some s => step df s c | None => None end)
    clicks (Some st).

(** The sessions a sequence of clicks leads to. *)
Inductive reachable {S : Solver} (df : list Scored) : Session -> Prop :=
  | reach_initial : reachable df initial
  | reach_step st c st' :
      reachable df st -> step df st c = Some st' -> reachable df st'.

(** The invariant of a session: the ids picked by hand are riders of the
    table, each once; the stored roster is made of rows of the table, each
    rider once. *)
Definition session_ok (df : list Scored) (st : Session) : Prop :=
  NoDup (manual_team_ids st) /\ incl (manual_team_ids st) (ids df) /\
  forall team, opt_team st = Some team -> NoDup (ids team) /\ incl team df.

End Builder.

Module Sessions.
Import Tables Builder.

(** Twenty riders priced 2M with 1 to 20 projected points: at the 20 riders
    the page asks for and a budget of 50M, the whole table is the one
    roster that meets the request. *)
Definition twenty : list Scored :=
  map (fun i => row (Z.of_nat i) 2000000 3 (Z2F (Z.of_nat i))) (seq 1 20).

(** That roster, best first. *)
Definition twenty_roster : list Scored := rev twenty.

(** Rider 3 added by hand after an optimisation at 50M. *)
Definition twenty_session : Session :=
  {| manual_team_ids := [3]; opt_team := Some twenty_roster |}.

End Sessions.

(** ** The step function as the design states it *)

(** The weight of an event as the catalog writes it, in tenths. *)
Definition weight_tenths (r : race) : Z :=
  match r with
  | omloop => 7 | kuurne => 6 | paris_nice => 3 | tirreno => 3
  | strade_bianche => 7 | milano_sanremo => 6 | brugge => 4 | e3 => 7
  | gent_wevelgem => 6 | dwars => 6 | ronde_van_vlaanderen => 9
  | scheldeprijs => 5 | paris_roubaix => 9 | brabantse_pijl => 5
  | amstel => 7 | fleche_wallonne => 7 | luik => 8
  end.

(** The design's [race_score] on the two ratings an event reads, as a
    rational number: [(primary*0.7 + secondary*0.3) * event_weight]. *)
Definition design_race_score (r : race) (p s : Z) : Q :=
  ((inject_Z p * (7 # 10) + inject_Z s * (3 # 10)) * (weight_tenths r # 10))%Q.

(** The design's table from [race_score] to projected points. *)
Definition design_points (score : Q) : Q :=
  if Qle_bool 7 score then 28
  else if Qle_bool 5 score then 15
  else if Qle_bool 3 score then 7
  else if Qle_bool (3 # 2) score then 2
  else if Qle_bool score 0 then 0
  else (1 # 2).

(** The two pairs of ratings whose [race_score] is a breakpoint of the table
    while the double the code computes lies just below it: hill = punch = 3
    and hill = punch = 6 in the Brabantse Pijl. *)
Definition on_lost_boundary (r : race) (p s : Z) : bool :=
  match r with
  | brabantse_pijl => (p =? s) && ((p =? 3) || (p =? 6))
  | _ => false
  end.

(** A pair of cells no row gives: an event without a secondary quality
    reads 0 for it. *)
Definition unread_secondary (m : mapping) (s : Z) : bool :=
  match secondary m with
  | Some _ => false
  | None => negb (s =? 0)
  end.

(** The code against the design's table: every event, on every pair of
    ratings of the scale it can read but the two above. *)
Definition agrees_with_design : bool :=
  forallb
    (fun r =>
       match RACE_QUALITY_MAP r with
       | Some m =>
           forallb
             (fun p =>
                forallb
                  (fun s =>
                     unread_secondary m s
                     || on_lost_boundary r p s
                     || Qeq_bool (Qmake (grid_points m p s) 2)
                                 (design_points (design_race_score r p s)))
                  grid)
             grid
       | None => true
       end)
    races.

(** Each weight of the catalog is the double nearest to its tenths. *)
Definition weights_in_tenths : bool :=
  forallb
    (fun r =>
       match RACE_QUALITY_MAP r with
       | Some m =>
           Leibniz.eqb (event_weight m)
                       (PrimFloat.div (Z2F (weight_tenths r)) 10)
       | None => false
       end)
    races.


(** * Properties *)

(** ** Order facts on doubles, through their specification *)

Module FloatOrder.

Ltac sf_cases :=
  repeat match goal with
  | f : spec_float |- _ => destruct f as [[|]|[|]| |[|] ? ?]
  end;
  cbn [SFcompare SFltb SFleb SFeqb].

Ltac cmp_cases :=
  repeat match goal with
  | |- context [Z.compare ?a ?b] => destruct (Z.compare_spec a b)
  | |- context [Pos.compare_cont Eq ?a ?b] =>
      change (Pos.compare_cont Eq a b) with (Pos.compare a b);
      destruct (Pos.compare_spec a b)
  end;
  cbn [CompOpp] in *.

Ltac sf_order :=
  unfold SFleb, SFltb, SFeqb; sf_cases;
  try (intros; congruence); cmp_cases; intros; try congruence; try lia.

Lemma SFleb_trans a b c :
  SFleb a b = true -> SFleb b c = true -> SFleb a c = true.
Proof. sf_order. Qed.

Lemma SFltb_leb_trans a b c :
  SFltb a b = true -> SFleb b c = true -> SFltb a c = true.
Proof. sf_order. Qed.

Lemma SFleb_ltb_trans a b c :
  SFleb a b = true -> SFltb b c = true -> SFltb a c = true.
Proof. sf_order. Qed.

Lemma SFltb_leb_false a b : SFltb a b = true -> SFleb b a = false.
Proof. sf_order. Qed.

Lemma SFltb_eqb_false a b : SFltb a b = true -> SFeqb b a = false.
Proof. sf_order. Qed.

Lemma SFeqb_leb a b : SFeqb a b = true -> SFleb a b = true.
Proof. sf_order. Qed.

Lemma SFeqb_ltb_false a b : SFeqb a b = true -> SFltb b a = false.
Proof. sf_order. Qed.

Lemma SFleb_total a b :
  SFleb a a = true -> SFleb b b = true -> SFleb a b = false -> SFleb b a = true.
Proof. sf_order. Qed.

Local Open Scope float_scope.

Lemma leb_trans x y z : (x <=? y) = true -> (y <=? z) = true -> (x <=? z) = true.
Proof. rewrite !leb_spec. apply SFleb_trans. Qed.

Lemma ltb_leb_trans x y z : (x <? y) = true -> (y <=? z) = true -> (x <? z) = true.
Proof. rewrite !ltb_spec, !leb_spec. apply SFltb_leb_trans. Qed.

Lemma leb_ltb_trans x y z : (x <=? y) = true -> (y <? z) = true -> (x <? z) = true.
Proof. rewrite !ltb_spec, !leb_spec. apply SFleb_ltb_trans. Qed.

Lemma ltb_leb_false x y : (x <? y) = true -> (y <=? x) = false.
Proof. rewrite ltb_spec, leb_spec. apply SFltb_leb_false. Qed.

Lemma ltb_eqb_false x y : (x <? y) = true -> (y =? x) = false.
Proof. rewrite ltb_spec, eqb_spec. apply SFltb_eqb_false. Qed.

Lemma eqb_leb x y : (x =? y) = true -> (x <=? y) = true.
Proof. rewrite eqb_spec, leb_spec. apply SFeqb_leb. Qed.

Lemma eqb_ltb_false x y : (x =? y) = true -> (y <? x) = false.
Proof. rewrite eqb_spec, ltb_spec. apply SFeqb_ltb_false. Qed.

(** On values that are not NaN ([x <=? x] holds), [<=?] is total. *)
Lemma leb_total x y :
  (x <=? x) = true -> (y <=? y) = true -> (x <=? y) = false -> (y <=? x) = true.
Proof. rewrite !leb_spec. apply SFleb_total. Qed.

(** Two comparisons around the same value that no pair of constants allows. *)
Ltac absurd_order :=
  exfalso;
  match goal with
  | H1 : (?a <=? ?s) = true, H2 : (?s <=? ?b) = true |- _ =>
      let X := fresh in
      pose proof (leb_trans _ _ _ H1 H2) as X; vm_compute in X; discriminate X
  | H1 : (?a <=? ?s) = true, H2 : (?s <? ?b) = true |- _ =>
      let X := fresh in
      pose proof (leb_ltb_trans _ _ _ H1 H2) as X; vm_compute in X; discriminate X
  | H1 : (?a <? ?s) = true, H2 : (?s <=? ?b) = true |- _ =>
      let X := fresh in
      pose proof (ltb_leb_trans _ _ _ H1 H2) as X; vm_compute in X; discriminate X
  end.

End FloatOrder.

(** ** Scoring model *)

Section Scoring.

Local Open Scope float_scope.

Lemma calculate_race_score_absent row race :
  race_ row race = false -> calculate_race_score row race = 0.
Proof. intros H. unfold calculate_race_score. now rewrite H. Qed.

Lemma calculate_race_score_present row race :
  race_ row race = true ->
  calculate_race_score row race = race_score_of row race.
Proof.
  intros H. unfold calculate_race_score, race_score_of. rewrite H. cbn [negb].
  destruct (RACE_QUALITY_MAP race) as [m|]; [|reflexivity].
  unfold weighted_quality, event_weight. now destruct (secondary m).
Qed.

Lemma calculate_expected_points_absent row race :
  race_ row race = false -> calculate_expected_points row race = 0.
Proof.
  intros H. unfold calculate_expected_points.
  now rewrite calculate_race_score_absent.
Qed.

Lemma calculate_expected_points_tier row race :
  In (calculate_expected_points row race) tiers.
Proof.
  unfold calculate_expected_points, tiers.
  repeat match goal with
  | |- context [if ?c then _ else _] => destruct c
  end; vm_compute; tauto.
Qed.

End Scoring.

(** *** The step function *)

Section StepFunction.

Local Open Scope float_scope.
Import FloatOrder.

(** The step function on the double the code computes.  A rider who does
    not start scores 0 points in the event.  A rider who starts, with
    race_score the double (primary*0.7 + secondary*0.3) * weight (secondary
    counting 0 when the event has none), is projected exactly 28.0 points
    when that double is >= 7, 15.0 on [5,7), 7.0 on [3,5), 2.0 on [1.5,3),
    0.5 on (0,1.5) and 0.0 when it is 0. *)
Theorem expected_points_step_function (row : Rider) (race : race) :
  let points := calculate_expected_points row race in
  let race_score := race_score_of row race in
  (race_ row race = false -> points = 0.0) /\
  (race_ row race = true ->
     ((7 <=? race_score) = true -> points = 28.0) /\
     ((5 <=? race_score) = true -> (race_score <? 7) = true -> points = 15.0) /\
     ((3 <=? race_score) = true -> (race_score <? 5) = true -> points = 7.0) /\
     ((1.5 <=? race_score) = true -> (race_score <? 3) = true -> points = 2.0) /\
     ((0 <? race_score) = true -> (race_score <? 1.5) = true -> points = 0.5) /\
     ((race_score =? 0) = true -> points = 0.0)).
Proof.
  intros points race_score. subst points. split.
  - apply calculate_expected_points_absent.
  - intros Hstart. unfold calculate_expected_points.
    rewrite (calculate_race_score_present _ _ Hstart).
    fold race_score. generalize race_score as s. intros s.
    repeat split; intros;
      repeat match goal with
      | H : (_ =? _) = true |- _ => apply eqb_leb in H
      | |- context [if ?c then _ else _] => destruct c eqn:?
      end;
      first [ reflexivity | congruence | absurd_order ].
Qed.

End StepFunction.

(** *** Range of the raw score (C4) *)

Section ScoreRange.

Local Open Scope float_scope.

Lemma in_grid z : (0 <= z <= 10)%Z -> In z grid.
Proof.
  intros H.
  assert (z = 0 \/ z = 1 \/ z = 2 \/ z = 3 \/ z = 4 \/ z = 5 \/ z = 6 \/
          z = 7 \/ z = 8 \/ z = 9 \/ z = 10)%Z as D by lia.
  unfold grid. simpl. intuition auto.
Qed.

Lemma races_complete (r : race) : In r races.
Proof. destruct r; vm_compute; tauto. Qed.

Lemma scores_within_sound lo hi race m p s :
  scores_within lo hi = true ->
  RACE_QUALITY_MAP race = Some m -> In p grid -> In s grid ->
  (lo <=? score_formula p s (event_weight m)) = true /\
  (score_formula p s (event_weight m) <=? hi) = true.
Proof.
  unfold scores_within. rewrite forallb_forall. intros H Hm Hp Hs.
  specialize (H race (races_complete race)). rewrite Hm in H.
  rewrite forallb_forall in H. specialize (H p Hp).
  rewrite forallb_forall in H. specialize (H s Hs).
  now apply andb_true_iff in H.
Qed.

Lemma race_score_of_formula row race :
  (forall q, (0 <= q_ row q <= 10)%Z) ->
  exists m p s,
    RACE_QUALITY_MAP race = Some m /\ In p grid /\ In s grid /\
    race_score_of row race = score_formula p s (event_weight m).
Proof.
  intros Hq. unfold race_score_of.
  destruct (RACE_QUALITY_MAP race) as [m|] eqn:Hm; [|destruct race; discriminate].
  exists m, (q_ row (primary m)).
  unfold weighted_quality, score_formula.
  destruct (secondary m) as [s|].
  - exists (q_ row s). repeat split; auto using in_grid.
  - exists 0%Z. repeat split; auto using in_grid. apply in_grid. lia.
Qed.

End ScoreRange.

(** *** Totals (C5) *)

Section Totals.

Local Open Scope float_scope.

Lemma in_Zrange n k : (0 <= k < Z.of_nat n)%Z -> In k (Zrange n).
Proof.
  intros H. unfold Zrange. apply in_map_iff. exists (Z.to_nat k). split.
  - lia.
  - apply in_seq. lia.
Qed.

Lemma calculate_expected_points_half row race :
  calculate_expected_points row race
  = half (half_points (calculate_race_score row race)).
Proof.
  unfold calculate_expected_points, half_points.
  repeat match goal with
  | |- context [if ?c then _ else _] => destruct c
  end; reflexivity.
Qed.

Lemma half_points_tier s : In (half_points s) half_tiers.
Proof.
  unfold half_points, half_tiers.
  repeat match goal with
  | |- context [if ?c then _ else _] => destruct c
  end; simpl; tauto.
Qed.

Lemma half_add k t :
  (0 <= k <= 896)%Z -> In t half_tiers -> half k + half t = half (k + t).
Proof.
  intros Hk Ht.
  assert (sums_exact = true) as H by (vm_compute; reflexivity).
  unfold sums_exact in H. rewrite forallb_forall in H.
  specialize (H k (in_Zrange 897 k ltac:(lia))).
  rewrite forallb_forall in H. specialize (H t Ht).
  now apply Leibniz.eqb_spec in H.
Qed.

Lemma F2Q_half k : (0 <= k <= 952)%Z -> (F2Q (half k) == k # 2)%Q.
Proof.
  intros Hk.
  assert (halves_denote = true) as H by (vm_compute; reflexivity).
  unfold halves_denote in H. rewrite forallb_forall in H.
  apply Qeq_bool_iff, H, in_Zrange. lia.
Qed.

Lemma Zsum_half_points_bounds (f : race -> Z) (l : list race) :
  (forall r, In (f r) half_tiers) ->
  (0 <= Zsum (map f l) <= 56 * Z.of_nat (List.length l))%Z.
Proof.
  intros Hf. induction l as [|r l IH]; simpl.
  - lia.
  - specialize (Hf r). unfold half_tiers in Hf. simpl in Hf.
    change (fold_right Z.add 0%Z (map f l)) with (Zsum (map f l)).
    lia.
Qed.

Lemma fold_half (f : race -> Z) (l : list race) (k : Z) :
  (forall r, In (f r) half_tiers) ->
  (0 <= k)%Z -> (k + 56 * Z.of_nat (List.length l) <= 952)%Z ->
  fold_left (fun acc r => acc + half (f r)) l (half k)
  = half (k + Zsum (map f l)).
Proof.
  intros Hf. revert k. induction l as [|r l IH]; intros k Hk Hb; simpl.
  - now rewrite Z.add_0_r.
  - simpl List.length in Hb.
    assert (In (f r) half_tiers) as Hr by apply Hf.
    rewrite half_add by (auto; lia).
    rewrite IH.
    + f_equal. change (fold_right Z.add 0%Z (map f l)) with (Zsum (map f l)). lia.
    + unfold half_tiers in Hr. simpl in Hr. lia.
    + unfold half_tiers in Hr. simpl in Hr. lia.
Qed.

Lemma Qsum_half (f : race -> Z) (l : list race) :
  (forall r, In (f r) half_tiers) ->
  (Qsum (map (fun r => F2Q (half (f r))) l) == Zsum (map f l) # 2)%Q.
Proof.
  intros Hf. induction l as [|r l IH]; simpl.
  - reflexivity.
  - rewrite IH, F2Q_half.
    + apply Qinv_plus_distr.
    + specialize (Hf r). unfold half_tiers in Hf. simpl in Hf. lia.
Qed.

Lemma eq_refl_Qsum (l l' : list Q) : l = l' -> (Qsum l == Qsum l')%Q.
Proof. intros ->. reflexivity. Qed.

Lemma sum_exp_cols_half (f : race -> Z) :
  (forall r, In (f r) half_tiers) ->
  sum_exp_cols (fun r => half (f r)) = half (Zsum (map f races)).
Proof.
  intros Hf. unfold sum_exp_cols.
  change 0.0 with (half 0).
  rewrite (fold_half f races 0 Hf); [reflexivity | lia | vm_compute; discriminate].
Qed.

Lemma sum_exp_cols_ext (f g : race -> float) :
  (forall r, f r = g r) -> sum_exp_cols f = sum_exp_cols g.
Proof.
  intros H. unfold sum_exp_cols. generalize 0.0 as acc.
  induction races as [|r l IH]; intros acc; simpl.
  - reflexivity.
  - now rewrite H, IH.
Qed.

Lemma total_half row :
  calculate_total_expected_points row
  = half (Zsum (map (fun r => half_points (calculate_race_score row r)) races)).
Proof.
  rewrite <- (sum_exp_cols_half (fun r => half_points (calculate_race_score row r)))
    by (intros; apply half_points_tier).
  apply sum_exp_cols_ext. intros r. apply calculate_expected_points_half.
Qed.

Lemma total_exact row :
  (F2Q (calculate_total_expected_points row)
   == Qsum (map (fun r => F2Q (calculate_expected_points row r)) races))%Q.
Proof.
  rewrite total_half.
  pose proof (Zsum_half_points_bounds
                (fun r => half_points (calculate_race_score row r)) races
                (fun r => half_points_tier _)) as B.
  change (Z.of_nat (List.length races)) with 17%Z in B.
  rewrite F2Q_half by lia.
  rewrite <- Qsum_half by (intros; apply half_points_tier).
  apply eq_refl_Qsum. apply map_ext. intros r.
  now rewrite calculate_expected_points_half.
Qed.

Lemma calculate_value_score_ok row :
  calculate_value_score row
  = Ok (if 0 <? price_m row
        then calculate_total_expected_points row / price_m row else 0.0).
Proof.
  unfold calculate_value_score, truediv.
  destruct (0 <? price_m row) eqn:E; [|reflexivity].
  now rewrite (FloatOrder.ltb_eqb_false _ _ E).
Qed.

Lemma enrich_row_ok row :
  exists v,
    enrich_row row
    = Ok {| rider := row; exp_ := calculate_expected_points row;
            exp_total := calculate_total_expected_points row;
            value_score := v |}.
Proof.
  unfold enrich_row. rewrite calculate_value_score_ok. cbn [bind]. eauto.
Qed.

End Totals.

(** C5. Each per-event projected-points value lies in [0, 28.0]; the total
    projected points are exactly (with no rounding) the sum of the 17
    per-event values; and the [exp_total] column that [enrich_with_scores]
    writes is that same total. *)
Theorem projected_points_bounded_and_summed (row : Rider) :
  (forall race,
     (0 <=? calculate_expected_points row race)%float = true /\
     (calculate_expected_points row race <=? 28.0)%float = true) /\
  (F2Q (calculate_total_expected_points row)
   == Qsum (map (fun race => F2Q (calculate_expected_points row race)) races))%Q /\
  (exists s : Scored,
     enrich_row row = Ok s /\
     (forall race, exp_ s race = calculate_expected_points row race) /\
     exp_total s = calculate_total_expected_points row /\
     (F2Q (exp_total s) == Qsum (map (fun race => F2Q (exp_ s race)) races))%Q).
Proof.
  split; [|split].
  - intros race.
    pose proof (calculate_expected_points_tier row race) as H.
    unfold tiers in H. cbn [In] in H.
    repeat destruct H as [H|H]; try contradiction; rewrite <- H;
      split; reflexivity.
  - apply total_exact.
  - destruct (enrich_row_ok row) as [v Hv].
    eexists. split; [exact Hv|]. cbn [exp_ exp_total rider].
    repeat split. apply total_exact.
Qed.

(** C9. The value score is the total projected points divided by the price
    in millions when that price is positive and 0 when it is 0; the call
    returns on every row (the division never sees a zero divisor). *)
Theorem value_score_guarded (row : Rider) :
  exists v,
    calculate_value_score row = Ok v /\
    ((0 <? price_m row)%float = true ->
       v = (calculate_total_expected_points row / price_m row)%float /\
       (price_m row =? 0)%float = false) /\
    ((price_m row =? 0)%float = true -> v = 0.0%float) /\
    (price row = 0 -> price_m row = (Z2F (price row) / 1000000)%float ->
       v = 0.0%float).
Proof.
  rewrite calculate_value_score_ok. eexists. split; [reflexivity|].
  split; [|split].
  - intros H. rewrite H. split; [reflexivity|].
    now apply FloatOrder.ltb_eqb_false.
  - intros H. now rewrite (FloatOrder.eqb_ltb_false _ _ H).
  - intros H0 Hm. rewrite Hm, H0. reflexivity.
Qed.

(** C4, as stated, fails: with both qualities at 10 the Ronde van Vlaanderen
    (weight 0.9) gives a raw score of 9, above 7. *)
Lemma race_score_above_seven :
  (forall q, 0 <= q_ Examples.flandrien q <= 10) /\
  In ronde_van_vlaanderen races /\
  calculate_race_score Examples.flandrien ronde_van_vlaanderen = 9.0%float /\
  (calculate_race_score Examples.flandrien ronde_van_vlaanderen <=? 7)%float
  = false.
Proof.
  split; [|split; [|split]].
  - intros q. cbn. lia.
  - apply races_complete.
  - reflexivity.
  - reflexivity.
Qed.

(** C4, amended. With quality values in [0,10], the raw score of every
    catalog event lies in [0, 9]. *)
Theorem race_score_range (row : Rider) (race : race) :
  (forall q, 0 <= q_ row q <= 10) ->
  (0 <=? calculate_race_score row race)%float = true /\
  (calculate_race_score row race <=? 9)%float = true.
Proof.
  intros Hq. destruct (race_ row race) eqn:Hstart.
  - rewrite (calculate_race_score_present _ _ Hstart).
    destruct (race_score_of_formula row race Hq) as (m & p & s & Hm & Hp & Hs & E).
    rewrite E.
    apply (scores_within_sound 0 9 race m p s);
      [vm_compute; reflexivity | assumption ..].
  - rewrite (calculate_race_score_absent _ _ Hstart). split; reflexivity.
Qed.

Lemma race_score_range_witness :
  (forall q, 0 <= q_ Examples.flandrien q <= 10) /\
  (0 <=? calculate_race_score Examples.flandrien luik)%float = true /\
  (calculate_race_score Examples.flandrien luik <=? 9)%float = true.
Proof.
  assert (forall q, 0 <= q_ Examples.flandrien q <= 10) as H
    by (intros q; cbn; lia).
  split; [exact H|].
  exact (race_score_range Examples.flandrien luik H).
Defined.
(** ** Roster selector *)

Section Picking.

Context {A : Type}.
Implicit Types (a : assignment) (l : list A).

Lemma pick_nil_l l : pick [] l = [].
Proof. reflexivity. Qed.

Lemma pick_nil_r a : pick a ([] : list A) = [].
Proof. now destruct a. Qed.

Lemma pick_incl a l : incl (pick a l) l.
Proof.
  revert a. induction l as [|x l IH]; intros [|[|] a]; cbn [pick];
    try apply incl_nil_l.
  - apply incl_cons; [now left | apply incl_tl, IH].
  - apply incl_tl, IH.
Qed.

Lemma pick_In a l x :
  In x (pick a l) <-> exists i, chosen a i = true /\ nth_error l i = Some x.
Proof.
  revert a. induction l as [|y l IH]; intros a.
  - rewrite pick_nil_r. split; [intros [] | intros (i & _ & H)].
    now destruct i.
  - destruct a as [|b a].
    + split; [intros [] | intros (i & H & _)].
      unfold chosen in H. now destruct i.
    + cbn [pick]. split.
      * intros H.
        assert (b = true /\ y = x \/ In x (pick a l)) as [[-> ->]|H']
          by (destruct b; [destruct H; auto | auto]).
        -- now exists 0%nat.
        -- apply IH in H' as (i & Hi & Hn). now exists (S i).
      * intros ([|i] & Hi & Hn).
        -- cbn in Hi, Hn. subst b. injection Hn as ->. now left.
        -- assert (In x (pick a l)) by (apply IH; now exists i).
           destruct b; [now right | assumption].
Qed.

Lemma mapM_iloc_shift x l idxs :
  mapM (iloc (x :: l)) (map S idxs) = mapM (iloc l) idxs.
Proof.
  induction idxs as [|i idxs IH]; [reflexivity|].
  cbn [map mapM]. now rewrite IH.
Qed.

Lemma mapM_iloc_filter (q : nat -> bool) l :
  mapM (iloc l) (filter q (seq 0 (List.length l)))
  = Ok (pick (map q (seq 0 (List.length l))) l).
Proof.
  revert q. induction l as [|x l IH]; intros q; [reflexivity|].
  cbn [List.length seq]. rewrite <- seq_shift.
  cbn [filter map pick]. rewrite filter_map_swap, map_map.
  specialize (IH (fun i => q (S i))).
  destruct (q 0%nat); cbn [mapM]; rewrite mapM_iloc_shift, IH; reflexivity.
Qed.

End Picking.

Lemma pick_map {A B : Type} (f : A -> B) a (l : list A) :
  pick a (map f l) = map f (pick a l).
Proof.
  revert a. induction l as [|x l IH]; intros [|[|] a]; cbn [pick map];
    try reflexivity; now rewrite IH.
Qed.

Lemma pick_length_le {A : Type} a (l : list A) :
  (List.length (pick a l) <= List.length l)%nat.
Proof.
  revert a. induction l as [|x l IH]; intros [|[|] a]; cbn [pick List.length];
    try lia; specialize (IH a); lia.
Qed.

Lemma bool_value_is_one b : PrimFloat.eqb (bool_value b) 1 = b.
Proof. now destruct b. Qed.

Lemma selection_mask_values a :
  forall sol, varValue sol = map bool_value a ->
  selection_mask (List.length a) sol = a.
Proof.
  intros sol E. unfold selection_mask. rewrite E. clear E sol.
  induction a as [|b a IH]; [reflexivity|].
  cbn [List.length seq]. rewrite <- seq_shift. cbn [map nth_error].
  rewrite map_map. cbn [nth_error]. rewrite IH.
  now rewrite bool_value_is_one.
Qed.

(** *** Reading the constraints *)

Section Constraints.

Implicit Types (a : assignment).

Lemma combine_seq_shift {B : Type} k (cs : list B) n :
  combine (seq (S k) n) cs = map shift_term (combine (seq k n) cs).
Proof.
  revert k cs. induction n as [|n IH]; intros k [|c cs]; cbn [seq combine map];
    try reflexivity.
  now rewrite IH.
Qed.

Lemma lhs_nil ts : lhs [] ts = 0.
Proof.
  induction ts as [|[i c] ts IH]; [reflexivity|].
  cbn [lhs fold_right fst snd] in *. unfold chosen at 1.
  replace (nth i [] false) with false by now destruct i.
  unfold lhs in IH. rewrite IH. reflexivity.
Qed.

Lemma lhs_shift b a ts : lhs (b :: a) (map shift_term ts) = lhs a ts.
Proof.
  induction ts as [|[i c] ts IH]; [reflexivity|].
  cbn [map lhs fold_right shift_term fst snd] in *.
  unfold lhs in IH. now rewrite IH.
Qed.

Lemma lhs_dense a (cs : list Z) :
  lhs a (combine (seq 0 (List.length cs)) cs) = Zsum (pick a cs).
Proof.
  revert a. induction cs as [|c cs IH]; intros a.
  - now rewrite pick_nil_r.
  - destruct a as [|b a]; [now rewrite lhs_nil|].
    cbn [List.length seq combine]. rewrite combine_seq_shift.
    change (lhs (b :: a) ((0%nat, c) :: map shift_term (combine (seq 0 (List.length cs)) cs)))
      with ((if b then c else 0)
            + lhs (b :: a) (map shift_term (combine (seq 0 (List.length cs)) cs))).
    rewrite lhs_shift, IH. cbn [pick].
    destruct b; [change (Zsum (c :: pick a cs)) with (c + Zsum (pick a cs)) | ];
      lia.
Qed.

Lemma ones_dense {A : Type} (l : list A) :
  map (fun i => (i, 1)) (seq 0 (List.length l))
  = combine (seq 0 (List.length l)) (map (fun _ => 1) l).
Proof.
  generalize 0%nat as k. induction l as [|x l IH]; intros k; [reflexivity|].
  cbn [List.length seq map combine]. now rewrite IH.
Qed.

Lemma Zsum_ones {A : Type} (l : list A) :
  Zsum (map (fun _ => 1) l) = Z.of_nat (List.length l).
Proof.
  induction l as [|x l IH]; [reflexivity|].
  cbn [map List.length].
  change (Zsum (1 :: map (fun _ => 1) l)) with (1 + Zsum (map (fun _ : A => 1) l)).
  lia.
Qed.

Lemma lhs_column {A : Type} (f : A -> Z) a (l : list A) :
  lhs a (combine (seq 0 (List.length l)) (map f l)) = Zsum (map f (pick a l)).
Proof.
  pose proof (lhs_dense a (map f l)) as H.
  now rewrite length_map, pick_map in H.
Qed.

Lemma lhs_ones {A : Type} a (l : list A) :
  lhs a (map (fun i => (i, 1)) (seq 0 (List.length l)))
  = Z.of_nat (List.length (pick a l)).
Proof. now rewrite ones_dense, lhs_column, Zsum_ones. Qed.

Lemma qlhs_nil ts : (qlhs [] ts == 0)%Q.
Proof.
  induction ts as [|[i c] ts IH]; [reflexivity|].
  cbn [qlhs fold_right fst snd] in *. unfold chosen at 1.
  replace (nth i [] false) with false by now destruct i.
  unfold qlhs in IH. rewrite IH. reflexivity.
Qed.

Lemma qlhs_shift b a ts : qlhs (b :: a) (map shift_term ts) = qlhs a ts.
Proof.
  induction ts as [|[i c] ts IH]; [reflexivity|].
  cbn [map qlhs fold_right shift_term fst snd] in *.
  unfold qlhs in IH. now rewrite IH.
Qed.

Lemma qlhs_dense a (cs : list float) :
  (qlhs a (combine (seq 0 (List.length cs)) cs) == Qsum (map F2Q (pick a cs)))%Q.
Proof.
  revert a. induction cs as [|c cs IH]; intros a.
  - now rewrite pick_nil_r.
  - destruct a as [|b a]; [now rewrite qlhs_nil|].
    cbn [List.length seq combine]. rewrite combine_seq_shift.
    change (qlhs (b :: a) ((0%nat, c) :: map shift_term (combine (seq 0 (List.length cs)) cs)))
      with ((if b then F2Q c else 0)
            + qlhs (b :: a) (map shift_term (combine (seq 0 (List.length cs)) cs)))%Q.
    rewrite qlhs_shift, IH. cbn [pick].
    destruct b; cbn [map Qsum fold_right]; [reflexivity | apply Qplus_0_l].
Qed.

(** Positions and rows of [enumerate]. *)
Lemma in_combine_seq {A : Type} (l : list A) k i x :
  In (i, x) (combine (seq k (List.length l)) l)
  <-> (k <= i)%nat /\ nth_error l (i - k) = Some x.
Proof.
  revert k. induction l as [|y l IH]; intros k.
  - cbn. split; [intros [] | intros [_ H]]. now destruct (i - k)%nat.
  - cbn [List.length seq combine In]. rewrite IH. split.
    + intros [E | [Hk Hn]].
      * injection E as -> ->. rewrite Nat.sub_diag. split; [lia | reflexivity].
      * split; [lia|]. replace (i - k)%nat with (S (i - S k)) by lia. exact Hn.
    + intros [Hk Hn]. destruct (Nat.eq_dec i k) as [->|Hne].
      * rewrite Nat.sub_diag in Hn. injection Hn as ->. now left.
      * right. split; [lia|].
        replace (i - k)%nat with (S (i - S k)) in Hn by lia. exact Hn.
Qed.

Lemma in_enumerate {A : Type} (l : list A) i x :
  In (i, x) (enumerate l) <-> nth_error l i = Some x.
Proof.
  unfold enumerate. rewrite in_combine_seq, Nat.sub_0_r.
  split; [now intros [_ H] | intros H; split; [lia | exact H]].
Qed.

Lemma in_index_of_id rid (cands : list Scored) i :
  In i (index_of_id rid cands)
  <-> exists r : Scored, nth_error cands i = Some r /\ market_rider_id r = rid.
Proof.
  unfold index_of_id. rewrite in_map_iff. split.
  - intros ([j r] & <- & H). apply filter_In in H as [H E].
    apply in_enumerate in H. exists r. split; [exact H | now apply Z.eqb_eq].
  - intros (r & H & E). exists (i, r). split; [reflexivity|].
    apply filter_In. split; [now apply in_enumerate | now apply Z.eqb_eq].
Qed.

Lemma in_ids rid (rows : list Scored) :
  In rid (ids rows)
  <-> exists r : Scored, In r rows /\ market_rider_id r = rid.
Proof.
  unfold ids. rewrite in_map_iff. split; intros (r & H1 & H2); exists r; auto.
Qed.

Lemma same_id_same_position (cands : list Scored) i j (r r' : Scored) :
  NoDup (ids cands) ->
  nth_error cands i = Some r -> nth_error cands j = Some r' ->
  market_rider_id r = market_rider_id r' -> i = j.
Proof.
  intros ND Hi Hj E.
  apply (proj1 (NoDup_nth_error (ids cands)) ND).
  - unfold ids. rewrite length_map. apply nth_error_Some. congruence.
  - unfold ids. rewrite !nth_error_map, Hi, Hj. cbn. now rewrite E.
Qed.

(** What the lock constraints say. *)
Lemma lock_constraints_sat v a cands lock :
  forallb (satisfiesb a) (lock_constraints v cands lock) = true
  <-> forall rid i rest,
        In rid lock -> index_of_id rid cands = i :: rest ->
        (if chosen a i then 1 else 0) = v.
Proof.
  rewrite forallb_forall. unfold lock_constraints. split.
  - intros H rid i rest Hin Hidx.
    specialize (H {| terms := [(i, 1)]; rel := EQ; rhs := v |}).
    unfold satisfiesb in H. cbn in H. rewrite Z.add_0_r in H.
    apply Z.eqb_eq, H. apply in_flat_map. exists rid. split; [exact Hin|].
    rewrite Hidx. now left.
  - intros H c Hc. apply in_flat_map in Hc as (rid & Hin & Hc).
    destruct (index_of_id rid cands) as [|i rest] eqn:Hidx; [destruct Hc|].
    destruct Hc as [<-|[]]. unfold satisfiesb. cbn. rewrite Z.add_0_r.
    apply Z.eqb_eq. now apply (H rid i rest).
Qed.

End Constraints.

(** *** The candidate pool *)

Section Pool.

Lemma has_id_In rid rows : has_id rid rows = true <-> In rid (ids rows).
Proof.
  unfold has_id. rewrite existsb_exists, in_ids.
  split; intros (r & H & E); exists r; (split; [exact H|]);
    now apply Z.eqb_eq.
Qed.

Lemma NoDup_ids_filter (f : Scored -> bool) rows :
  NoDup (ids rows) -> NoDup (ids (filter f rows)).
Proof.
  unfold ids. induction rows as [|r rows IH]; intros ND; [constructor|].
  cbn [map] in ND. inversion ND as [|? ? Hnotin ND']; subst.
  cbn [filter]. destruct (f r); [|now apply IH].
  cbn [map]. constructor; [|now apply IH].
  intros Hin. apply Hnotin. apply in_map_iff in Hin as (r' & E & Hin).
  apply filter_In in Hin as [Hin _]. apply in_map_iff. now exists r'.
Qed.

Lemma candidate_rows_fold df locked_in :
  candidate_rows df locked_in
  = fold_left (add_locked df) locked_in
              (filter (fun r : Scored => 0 <? num_races r) df).
Proof. reflexivity. Qed.

Lemma add_locked_incl df cands rid :
  incl cands df -> incl (add_locked df cands rid) df.
Proof.
  intros H. unfold add_locked. destruct (negb (has_id rid cands)); [|exact H].
  apply incl_app; [exact H | apply incl_filter].
Qed.

Lemma add_locked_NoDup df cands rid :
  NoDup (ids df) -> NoDup (ids cands) -> NoDup (ids (add_locked df cands rid)).
Proof.
  intros NDdf ND. unfold add_locked.
  destruct (has_id rid cands) eqn:Hid; cbn [negb]; [exact ND|].
  unfold ids. rewrite map_app. apply NoDup_app.
  - exact ND.
  - now apply NoDup_ids_filter.
  - intros x Hx Hx'. apply in_map_iff in Hx' as (r & <- & Hr).
    apply filter_In in Hr as [_ E]. apply Z.eqb_eq in E. rewrite E in Hx.
    apply has_id_In in Hx. congruence.
Qed.

Lemma fold_add_locked_invariant (P : list Scored -> Prop) df lock cands :
  (forall c rid, P c -> P (add_locked df c rid)) ->
  P cands -> P (fold_left (add_locked df) lock cands).
Proof.
  intros Hstep. revert cands.
  induction lock as [|rid lock IH]; intros cands HP; [exact HP|].
  cbn [fold_left]. apply IH, Hstep, HP.
Qed.

Lemma candidate_rows_incl df locked_in : incl (candidate_rows df locked_in) df.
Proof.
  rewrite candidate_rows_fold. apply fold_add_locked_invariant.
  - intros c rid. apply add_locked_incl.
  - apply incl_filter.
Qed.

Lemma candidate_rows_NoDup df locked_in :
  NoDup (ids df) -> NoDup (ids (candidate_rows df locked_in)).
Proof.
  intros ND. rewrite candidate_rows_fold. apply fold_add_locked_invariant.
  - intros c rid. now apply add_locked_NoDup.
  - now apply NoDup_ids_filter.
Qed.

End Pool.

(** *** Sorting keeps the rows *)

Lemma insert_desc_perm {A : Type} (key : A -> float) x l :
  Permutation (insert_desc key x l) (x :: l).
Proof.
  induction l as [|y l IH]; cbn [insert_desc]; [reflexivity|].
  destruct (PrimFloat.leb (key y) (key x)); [reflexivity|].
  rewrite IH. apply perm_swap.
Qed.

Lemma sort_values_desc_perm {A : Type} (key : A -> float) l :
  Permutation (sort_values_desc key l) l.
Proof.
  induction l as [|x l IH]; cbn [sort_values_desc fold_right]; [reflexivity|].
  rewrite insert_desc_perm. now constructor.
Qed.

Lemma Zsum_perm l l' : Permutation l l' -> Zsum l = Zsum l'.
Proof.
  induction 1; cbn [Zsum fold_right] in *; unfold Zsum in *; lia.
Qed.

Lemma Qsum_perm l l' : Permutation l l' -> (Qsum l == Qsum l')%Q.
Proof.
  induction 1; cbn [Qsum fold_right] in *; unfold Qsum in *.
  - reflexivity.
  - now rewrite IHPermutation.
  - ring.
  - now rewrite IHPermutation1.
Qed.

Lemma total_points_perm t t' :
  Permutation t t' -> (total_points t == total_points t')%Q.
Proof. intros H. unfold total_points. now apply Qsum_perm, Permutation_map. Qed.

Lemma roster_ok_perm b ts lin lout t t' :
  Permutation t t' -> roster_ok b ts lin lout t -> roster_ok b ts lin lout t'.
Proof.
  intros HP (Hn & Hb & Hin & Hout).
  assert (forall rid, In rid (ids t) <-> In rid (ids t')) as Hids.
  { intros rid. unfold ids. split; apply Permutation_in;
      [|symmetry]; now apply Permutation_map. }
  repeat split.
  - now rewrite <- (Permutation_length HP).
  - now rewrite <- (Zsum_perm _ _ (Permutation_map _ HP)).
  - intros rid H. now apply Hids, Hin.
  - intros rid H H'. now apply (Hout rid H), Hids.
Qed.

(** *** The integer program against the design's roster conditions *)

Section Bridge.

Variables (cands : list Scored) (budget team_size : Z).
Variables (locked_in locked_out : list Z).

Let prob := build_problem cands budget team_size locked_in locked_out.

Lemma feasible_build a :
  feasible prob a <->
  List.length a = List.length cands /\
  Z.of_nat (List.length (pick a cands)) = team_size /\
  Zsum (map (fun r : Scored => price r) (pick a cands)) <= budget /\
  forallb (satisfiesb a) (lock_constraints 1 cands locked_in) = true /\
  forallb (satisfiesb a) (lock_constraints 0 cands locked_out) = true.
Proof.
  unfold feasible, feasibleb, prob, build_problem.
  cbn [num_vars constraints forallb].
  rewrite forallb_app, !andb_true_iff, Nat.eqb_eq.
  unfold satisfiesb at 1 2. cbn [rel terms rhs].
  rewrite lhs_ones, lhs_column, Z.eqb_eq, Z.leb_le. tauto.
Qed.

Lemma objective_build a :
  (objective_value prob a == total_points (pick a cands))%Q.
Proof.
  unfold objective_value, prob, build_problem. cbn [objective].
  pose proof (qlhs_dense a (map (fun r : Scored => exp_total r) cands)) as H.
  rewrite length_map, pick_map, map_map in H. exact H.
Qed.

Lemma feasible_roster_ok a :
  NoDup (ids cands) ->
  (forall rid, In rid locked_in -> In rid (ids cands)) ->
  feasible prob a ->
  roster_ok budget team_size locked_in locked_out (pick a cands).
Proof.
  intros ND Hpool Hf. apply feasible_build in Hf as (Hlen & Hn & Hb & Hin & Hout).
  rewrite lock_constraints_sat in Hin, Hout.
  repeat split; [exact Hn | exact Hb | |].
  - intros rid Hrid. specialize (Hpool rid Hrid).
    apply in_ids in Hpool as (r & Hr & E).
    apply In_nth_error in Hr as [j Hj].
    assert (In j (index_of_id rid cands)) as Hidx
      by (apply in_index_of_id; now exists r).
    destruct (index_of_id rid cands) as [|i rest] eqn:Ei; [destruct Hidx|].
    specialize (Hin rid i rest Hrid Ei).
    assert (In i (index_of_id rid cands)) as Hi by (rewrite Ei; now left).
    apply in_index_of_id in Hi as (r' & Hr' & E').
    apply in_ids. exists r'. split; [|exact E'].
    apply pick_In. exists i. split; [|exact Hr'].
    destruct (chosen a i); [reflexivity | discriminate].
  - intros rid Hrid Hsel. apply in_ids in Hsel as (r & Hr & E).
    apply pick_In in Hr as (j & Hj & Hnj).
    assert (In j (index_of_id rid cands)) as Hidx
      by (apply in_index_of_id; now exists r).
    destruct (index_of_id rid cands) as [|i rest] eqn:Ei; [destruct Hidx|].
    specialize (Hout rid i rest Hrid Ei).
    assert (In i (index_of_id rid cands)) as Hi by (rewrite Ei; now left).
    apply in_index_of_id in Hi as (r' & Hr' & E').
    assert (i = j) as -> by (eapply same_id_same_position; eauto; congruence).
    rewrite Hj in Hout. discriminate.
Qed.

Lemma roster_ok_feasible a :
  NoDup (ids cands) ->
  List.length a = List.length cands ->
  roster_ok budget team_size locked_in locked_out (pick a cands) ->
  feasible prob a.
Proof.
  intros ND Hlen (Hn & Hb & Hin & Hout). apply feasible_build.
  repeat split; [exact Hlen | exact Hn | exact Hb | |];
    apply lock_constraints_sat; intros rid i rest Hrid Ei;
    assert (In i (index_of_id rid cands)) as Hi by (rewrite Ei; now left);
    apply in_index_of_id in Hi as (r' & Hr' & E').
  - specialize (Hin rid Hrid). apply in_ids in Hin as (r & Hr & E).
    apply pick_In in Hr as (j & Hj & Hnj).
    assert (i = j) as -> by (eapply same_id_same_position; eauto; congruence).
    now rewrite Hj.
  - destruct (chosen a i) eqn:Hc; [|reflexivity].
    exfalso. apply (Hout rid Hrid). apply in_ids. exists r'.
    split; [|exact E']. apply pick_In. now exists i.
Qed.

End Bridge.

(** *** What [optimize_team] returns *)

Section Selector.

Context {S : Solver}.

Lemma enrich_with_scores_ok rows :
  exists df, enrich_with_scores rows = Ok df /\
             map (fun s : Scored => rider s) df = rows /\
             Forall (fun s : Scored =>
                       (forall race, exp_ s race = calculate_expected_points s race) /\
                       exp_total s = calculate_total_expected_points s) df.
Proof.
  unfold enrich_with_scores. induction rows as [|r rows (df & E & Hm & Hf)].
  - exists []. repeat split. constructor.
  - destruct (enrich_row_ok r) as [v Hv].
    eexists (_ :: df). cbn [mapM]. rewrite Hv, E. cbn [bind].
    split; [reflexivity|]. split; [cbn [map rider]; now rewrite Hm|].
    constructor; [|exact Hf]. cbn [rider exp_ exp_total]. now split.
Qed.

Lemma frame_rows_ok df : exists rows, frame_rows df = Ok rows.
Proof.
  destruct df as [rows|rows]; cbn [frame_rows]; [|eauto].
  destruct (enrich_with_scores_ok rows) as (df & E & _). eauto.
Qed.

(** The call returns on every input: the rows at the positions whose
    variable reads 1, in descending order of [exp_total]. *)
Lemma optimize_team_eq df rows budget team_size locked_in locked_out :
  frame_rows df = Ok rows ->
  let cands := candidate_rows rows locked_in in
  let prob := build_problem cands budget team_size locked_in locked_out in
  optimize_team df budget team_size locked_in locked_out
  = Ok (sort_values_desc exp_total
          (pick (selection_mask (List.length cands) (solve prob)) cands)).
Proof.
  intros Hrows cands prob. unfold optimize_team.
  change (match df with Plain r => enrich_with_scores r | Enriched r => Ok r end)
    with (frame_rows df).
  rewrite Hrows. cbn [bind]. fold cands. fold prob.
  unfold selected_indices. rewrite mapM_iloc_filter. reflexivity.
Qed.

Lemma optimize_team_picks df rows budget team_size locked_in locked_out :
  frame_rows df = Ok rows ->
  exists team mask,
    optimize_team df budget team_size locked_in locked_out = Ok team /\
    Permutation team (pick mask (candidate_rows rows locked_in)).
Proof.
  intros Hrows. rewrite (optimize_team_eq _ _ _ _ _ _ Hrows).
  eexists. eexists. split; [reflexivity|]. apply sort_values_desc_perm.
Qed.

Lemma optimize_team_incl df rows budget team_size locked_in locked_out :
  frame_rows df = Ok rows ->
  exists team,
    optimize_team df budget team_size locked_in locked_out = Ok team /\
    incl team (candidate_rows rows locked_in).
Proof.
  intros Hrows.
  destruct (optimize_team_picks df rows budget team_size locked_in locked_out
              Hrows) as (team & mask & Hteam & HP).
  exists team. split; [exact Hteam|].
  intros r Hr. apply (Permutation_in _ HP) in Hr. now apply pick_incl in Hr.
Qed.

Context {E : ExactSolver S}.

(** With an exact solver and a feasible request, the roster is a best one. *)
Lemma optimize_team_exact df rows budget team_size locked_in locked_out :
  frame_rows df = Ok rows ->
  NoDup (ids rows) ->
  let cands := candidate_rows rows locked_in in
  (exists mask, List.length mask = List.length cands /\
                roster_ok budget team_size locked_in locked_out (pick mask cands)) ->
  exists team,
    optimize_team df budget team_size locked_in locked_out = Ok team /\
    roster_ok budget team_size locked_in locked_out team /\
    incl team cands /\
    forall mask,
      List.length mask = List.length cands ->
      roster_ok budget team_size locked_in locked_out (pick mask cands) ->
      (total_points (pick mask cands) <= total_points team)%Q.
Proof.
  intros Hrows ND cands (mask0 & Hlen0 & Hok0).
  assert (NoDup (ids cands)) as NDc by now apply candidate_rows_NoDup.
  assert (forall rid, In rid locked_in -> In rid (ids cands)) as Hpool.
  { intros rid Hrid. destruct Hok0 as (_ & _ & Hin & _).
    specialize (Hin rid Hrid). apply in_ids in Hin as (r & Hr & Eid).
    apply in_ids. exists r. split; [now apply pick_incl in Hr | exact Eid]. }
  set (prob := build_problem cands budget team_size locked_in locked_out).
  destruct (solve_optimal prob) as (a & Hfa & Hval & _ & Hbest).
  { exists mask0. now apply roster_ok_feasible. }
  assert (List.length a = List.length cands) as Hlena
    by now apply feasible_build in Hfa as [H _].
  rewrite (optimize_team_eq _ _ _ _ _ _ Hrows). fold cands. fold prob.
  replace (selection_mask (List.length cands) (solve prob)) with a
    by (rewrite <- Hlena; symmetry; now apply selection_mask_values).
  eexists. split; [reflexivity|].
  pose proof (sort_values_desc_perm exp_total (pick a cands)) as HP.
  split; [|split].
  - apply (roster_ok_perm _ _ _ _ _ _ (Permutation_sym HP)).
    now apply feasible_roster_ok.
  - intros r Hr. apply (Permutation_in _ HP) in Hr. now apply pick_incl in Hr.
  - intros mask Hlen Hok.
    rewrite (total_points_perm _ _ HP).
    rewrite <- !(objective_build cands budget team_size locked_in locked_out).
    apply Hbest. now apply roster_ok_feasible.
Qed.

End Selector.

(** *** The reference solver is exact *)

Module ExhaustiveFacts.
Import Exhaustive.

Lemma all_assignments_complete a :
  In a (all_assignments (List.length a)).
Proof.
  induction a as [|b a IH]; [now left|].
  cbn [List.length all_assignments]. apply in_flat_map. exists a.
  split; [exact IH|]. destruct b; cbn; auto.
Qed.

Lemma argmax_spec p best rest :
  In (argmax p best rest) (best :: rest) /\
  forall x, In x (best :: rest) ->
    (objective_value p x <= objective_value p (argmax p best rest))%Q.
Proof.
  revert best. induction rest as [|a rest IH]; intros best; cbn [argmax].
  - split; [now left|]. intros x [<-|[]]. apply Qle_refl.
  - set (best' := if Qle_bool (objective_value p a) (objective_value p best)
                  then best else a).
    destruct (IH best') as [Hin Hmax].
    assert ((objective_value p best <= objective_value p best')%Q /\
            (objective_value p a <= objective_value p best')%Q /\
            (best' = best \/ best' = a)) as (Hb & Ha & Hc).
    { subst best'.
      destruct (Qle_bool (objective_value p a) (objective_value p best)) eqn:Hle.
      - apply Qle_bool_iff in Hle. repeat split; auto. apply Qle_refl.
      - assert (~ (objective_value p a <= objective_value p best)%Q) as Hn
          by (intros H; apply Qle_bool_iff in H; congruence).
        apply Qnot_le_lt, Qlt_le_weak in Hn. repeat split; auto. apply Qle_refl. }
    split.
    + destruct Hin as [Hin|Hin].
      * destruct Hc as [Hc|Hc]; rewrite <- Hin, Hc; cbn; auto.
      * right. now right.
    + intros x [<-|[<-|Hx]].
      * eapply Qle_trans; [exact Hb|]. apply Hmax. now left.
      * eapply Qle_trans; [exact Ha|]. apply Hmax. now left.
      * apply Hmax. now right.
Qed.

#[export] Instance exact : ExactSolver solver.
Proof.
  split.
  - intros p (a0 & H0). unfold solve, solver, exhaustive_solve.
    assert (In a0 (filter (feasibleb p) (all_assignments (num_vars p)))) as Hin.
    { apply filter_In. split; [|exact H0].
      unfold feasible, feasibleb in H0. apply andb_true_iff in H0 as [Hl _].
      apply Nat.eqb_eq in Hl. rewrite <- Hl. apply all_assignments_complete. }
    destruct (filter (feasibleb p) (all_assignments (num_vars p)))
      as [|a rest] eqn:Ef; [destruct Hin|].
    destruct (argmax_spec p a rest) as [Hmem Hmax].
    exists (argmax p a rest). cbn [varValue status]. repeat split.
    + rewrite <- Ef in Hmem. now apply filter_In in Hmem as [_ H].
    + intros a' Ha'. apply Hmax. rewrite <- Ef. apply filter_In. split; [|exact Ha'].
      unfold feasible, feasibleb in Ha'. apply andb_true_iff in Ha' as [Hl _].
      apply Nat.eqb_eq in Hl. rewrite <- Hl. apply all_assignments_complete.
  - intros p Hnone. unfold solve, solver, exhaustive_solve.
    destruct (filter (feasibleb p) (all_assignments (num_vars p)))
      as [|a rest] eqn:Ef; [reflexivity|].
    exfalso. apply (Hnone a).
    assert (In a (filter (feasibleb p) (all_assignments (num_vars p)))) as Hin
      by (rewrite Ef; now left).
    now apply filter_In in Hin as [_ H].
Qed.

End ExhaustiveFacts.

(** *** Rosters as duplicate-free lists of candidates *)

Section Subsets.

Lemma pick_of_test {A : Type} (f : A -> bool) (l : list A) :
  pick (map f l) l = filter f l.
Proof.
  induction l as [|x l IH]; [reflexivity|].
  cbn [map pick filter]. rewrite IH. now destruct (f x).
Qed.

Lemma same_id_same_row (rows : list Scored) (x y : Scored) :
  NoDup (ids rows) -> In x rows -> In y rows ->
  market_rider_id x = market_rider_id y -> x = y.
Proof.
  intros ND Hx Hy E.
  apply In_nth_error in Hx as [i Hi]. apply In_nth_error in Hy as [j Hj].
  assert (i = j) as -> by (eapply same_id_same_position; eauto).
  congruence.
Qed.

Lemma pick_NoDup_ids a (rows : list Scored) :
  NoDup (ids rows) -> NoDup (ids (pick a rows)).
Proof.
  unfold ids. revert a. induction rows as [|r rows IH]; intros a ND.
  - rewrite pick_nil_r. constructor.
  - destruct a as [|b a]; [constructor|].
    cbn [map] in ND. inversion ND as [|? ? Hnotin ND']; subst.
    cbn [pick]. destruct b; [|now apply IH].
    cbn [map]. constructor; [|now apply IH].
    intros Hin. apply Hnotin. apply in_map_iff in Hin as (r' & E & Hin).
    apply pick_incl in Hin. apply in_map_iff. now exists r'.
Qed.

(** Every duplicate-free list of candidates is picked by some assignment. *)
Lemma subset_as_mask (cands other : list Scored) :
  NoDup (ids cands) -> incl other cands -> NoDup (ids other) ->
  exists mask,
    List.length mask = List.length cands /\
    Permutation (pick mask cands) other.
Proof.
  intros NDc Hincl NDo.
  exists (map (fun r : Scored => has_id (market_rider_id r) other) cands).
  split; [apply length_map|].
  rewrite pick_of_test. apply NoDup_Permutation.
  - apply NoDup_filter. unfold ids in NDc. now apply NoDup_map_inv in NDc.
  - unfold ids in NDo. now apply NoDup_map_inv in NDo.
  - intros x. rewrite filter_In, has_id_In, in_ids. split.
    + intros (Hx & y & Hy & E).
      now rewrite (same_id_same_row cands x y NDc Hx (Hincl y Hy) (eq_sym E)).
    + intros Hx. split; [now apply Hincl | now exists x].
Qed.

End Subsets.

(** *** The selector's contract (C1, C2, C10) *)

Section SelectorContract.

Context {S : Solver}.

(** C1. With an exact solver, unique rider ids and a request some roster
    can meet, the returned roster has exactly [team_size] members, costs at
    most [budget], holds every forced-include id and no forced-exclude id,
    and no other set of candidates meeting these conditions has a greater
    sum of total projected points. *)
Theorem optimal_roster {E : ExactSolver S} (df : DataFrame) (rows : list Scored)
    (budget team_size : Z) (locked_in locked_out : list Z) :
  frame_rows df = Ok rows ->
  NoDup (ids rows) ->
  (exists other,
     incl other (candidate_rows rows locked_in) /\ NoDup (ids other) /\
     roster_ok budget team_size locked_in locked_out other) ->
  exists team,
    optimize_team df budget team_size locked_in locked_out = Ok team /\
    roster_ok budget team_size locked_in locked_out team /\
    incl team (candidate_rows rows locked_in) /\
    forall other,
      incl other (candidate_rows rows locked_in) -> NoDup (ids other) ->
      roster_ok budget team_size locked_in locked_out other ->
      (total_points other <= total_points team)%Q.
Proof.
  intros Hrows ND (other0 & Hincl0 & ND0 & Hok0).
  pose proof (candidate_rows_NoDup rows locked_in ND) as NDc.
  destruct (optimize_team_exact df rows budget team_size locked_in locked_out
              Hrows ND) as (team & Hteam & Hok & Hincl & Hbest).
  { destruct (subset_as_mask _ _ NDc Hincl0 ND0) as (mask & Hlen & HP).
    exists mask. split; [exact Hlen|].
    now apply (roster_ok_perm _ _ _ _ _ _ (Permutation_sym HP)). }
  exists team. repeat split; try assumption; try apply Hok.
  intros other Hincl' ND' Hok'.
  destruct (subset_as_mask _ _ NDc Hincl' ND') as (mask & Hlen & HP).
  rewrite <- (total_points_perm _ _ HP). apply Hbest; [exact Hlen|].
  now apply (roster_ok_perm _ _ _ _ _ _ (Permutation_sym HP)).
Qed.

End SelectorContract.

(** *** Lock ids and the pool *)

Section Locks.

Lemma fold_add_locked_invariant_in (P : list Scored -> Prop) df lock cands :
  (forall c rid, In rid lock -> P c -> P (add_locked df c rid)) ->
  P cands -> P (fold_left (add_locked df) lock cands).
Proof.
  revert cands. induction lock as [|rid lock IH]; intros cands Hstep HP;
    [exact HP|].
  cbn [fold_left]. apply IH.
  - intros c rid' Hin. apply Hstep. now right.
  - apply Hstep; [now left | exact HP].
Qed.

Lemma fold_add_locked_mono df lock cands :
  incl cands (fold_left (add_locked df) lock cands).
Proof.
  revert cands. induction lock as [|rid lock IH]; intros cands;
    [apply incl_refl|].
  cbn [fold_left]. eapply incl_tran; [|apply IH].
  unfold add_locked. destruct (negb (has_id rid cands));
    [apply incl_appl|]; apply incl_refl.
Qed.

(** A candidate has races or a locked-in id. *)
Lemma candidate_rows_origin df locked_in (x : Scored) :
  In x (candidate_rows df locked_in) ->
  0 < num_races x \/ In (market_rider_id x) locked_in.
Proof.
  rewrite candidate_rows_fold. revert x.
  apply (fold_add_locked_invariant_in
           (fun c => forall x : Scored, In x c ->
                       0 < num_races x \/ In (market_rider_id x) locked_in)).
  - intros c rid Hrid Hc x Hx. unfold add_locked in Hx.
    destruct (negb (has_id rid c)); [|now apply Hc].
    apply in_app_or in Hx as [Hx|Hx]; [now apply Hc|].
    apply filter_In in Hx as [_ E]. apply Z.eqb_eq in E. right. now rewrite E.
  - intros x Hx. apply filter_In in Hx as [_ Hx]. left. now apply Z.ltb_lt.
Qed.

(** A locked-in rider of the table is a candidate. *)
Lemma candidate_rows_locked df locked_in (s : Scored) :
  NoDup (ids df) -> In s df -> In (market_rider_id s) locked_in ->
  In s (candidate_rows df locked_in).
Proof.
  intros ND Hs Hin. rewrite candidate_rows_fold.
  apply in_split in Hin as (l1 & l2 & ->).
  rewrite fold_left_app. cbn [fold_left].
  apply fold_add_locked_mono.
  set (c := fold_left (add_locked df) l1 _).
  assert (incl c df) as Hc.
  { subst c. apply fold_add_locked_invariant.
    - intros c' rid. apply add_locked_incl.
    - apply incl_filter. }
  unfold add_locked. destruct (has_id (market_rider_id s) c) eqn:Hid; cbn [negb].
  - apply has_id_In, in_ids in Hid as (x & Hx & E).
    now rewrite <- (same_id_same_row df x s ND (Hc x Hx) Hs E).
  - apply in_or_app. right. apply filter_In. split; [exact Hs | apply Z.eqb_refl].
Qed.

Lemma index_of_id_unknown rid cands :
  ~ In rid (ids cands) -> index_of_id rid cands = [].
Proof.
  intros Hn. destruct (index_of_id rid cands) as [|i rest] eqn:E; [reflexivity|].
  exfalso. apply Hn.
  assert (In i (index_of_id rid cands)) as Hi by (rewrite E; now left).
  apply in_index_of_id in Hi as (r & Hr & Eid).
  apply in_ids. exists r. split; [now apply nth_error_In in Hr | exact Eid].
Qed.

Lemma lock_constraints_remove v cands rid lock :
  ~ In rid (ids cands) ->
  lock_constraints v cands (remove Z.eq_dec rid lock)
  = lock_constraints v cands lock.
Proof.
  intros Hn. unfold lock_constraints.
  induction lock as [|x lock IH]; [reflexivity|].
  cbn [remove flat_map]. destruct (Z.eq_dec rid x) as [<-|Hne].
  - rewrite IH, (index_of_id_unknown rid cands Hn). reflexivity.
  - cbn [flat_map]. now rewrite IH.
Qed.

Lemma filter_id_unknown df rid :
  ~ In rid (ids df) ->
  filter (fun r : Scored => market_rider_id r =? rid) df = [].
Proof.
  induction df as [|r df IH]; intros Hn; [reflexivity|].
  cbn [filter]. destruct (market_rider_id r =? rid) eqn:E.
  - exfalso. apply Hn. apply Z.eqb_eq in E. now left.
  - apply IH. intros H. apply Hn. now right.
Qed.

Lemma add_locked_unknown df cands rid :
  ~ In rid (ids df) -> add_locked df cands rid = cands.
Proof.
  intros Hn. unfold add_locked.
  destruct (negb (has_id rid cands)); [|reflexivity].
  rewrite (filter_id_unknown df rid Hn). apply app_nil_r.
Qed.

Lemma candidate_rows_remove df rid locked_in :
  ~ In rid (ids df) ->
  candidate_rows df (remove Z.eq_dec rid locked_in) = candidate_rows df locked_in.
Proof.
  intros Hn. rewrite !candidate_rows_fold.
  generalize (filter (fun r : Scored => 0 <? num_races r) df) as cands.
  induction locked_in as [|x lock IH]; intros cands; [reflexivity|].
  cbn [remove fold_left]. destruct (Z.eq_dec rid x) as [<-|Hne].
  - now rewrite IH, add_locked_unknown.
  - cbn [fold_left]. apply IH.
Qed.

End Locks.

Section LockContract.

Context {S : Solver}.

(** C10. A forced-include or forced-exclude id that no row of the table
    carries is ignored: the integer program is the one built without it,
    the call returns, and the roster is the one returned without that id
    in the lock lists. *)
Theorem unknown_lock_ids_ignored (df : DataFrame) (rows : list Scored)
    (budget team_size : Z) (locked_in locked_out : list Z) (rid : Z) :
  frame_rows df = Ok rows ->
  ~ In rid (ids rows) ->
  let locked_in' := remove Z.eq_dec rid locked_in in
  let locked_out' := remove Z.eq_dec rid locked_out in
  build_problem (candidate_rows rows locked_in) budget team_size
                locked_in locked_out
  = build_problem (candidate_rows rows locked_in') budget team_size
                  locked_in' locked_out' /\
  optimize_team df budget team_size locked_in locked_out
  = optimize_team df budget team_size locked_in' locked_out' /\
  exists team,
    optimize_team df budget team_size locked_in locked_out = Ok team.
Proof.
  intros Hrows Hn locked_in' locked_out'.
  assert (~ In rid (ids (candidate_rows rows locked_in))) as Hc.
  { intros H. apply Hn. apply in_ids in H as (r & Hr & E).
    apply in_ids. exists r. split; [|exact E].
    now apply candidate_rows_incl in Hr. }
  assert (build_problem (candidate_rows rows locked_in) budget team_size
            locked_in locked_out
          = build_problem (candidate_rows rows locked_in') budget team_size
              locked_in' locked_out') as Hprob.
  { subst locked_in' locked_out'. rewrite (candidate_rows_remove rows rid locked_in Hn).
    unfold build_problem. now rewrite !lock_constraints_remove. }
  split; [exact Hprob|]. split.
  - rewrite !(optimize_team_eq _ _ _ _ _ _ Hrows). cbv zeta.
    rewrite <- Hprob. subst locked_in'.
    now rewrite (candidate_rows_remove rows rid locked_in Hn).
  - rewrite (optimize_team_eq _ _ _ _ _ _ Hrows). eauto.
Qed.

End LockContract.

(** *** Requests no roster can meet (C2) *)

(** C2, as stated, fails: a request for a roster of size 0 is one the design
    calls infeasible, yet the call returns the empty roster and raises
    nothing; so does a request with the same id forced in and out. *)
Lemma empty_roster_is_returned :
  infeasible_request Tables.trio 45000000 0 [] [] /\
  optimize_team (S := Exhaustive.solver) (Enriched Tables.trio) 45000000 0 [] []
  = Ok [] /\
  infeasible_request Tables.trio 45000000 2 [1] [1] /\
  exists team,
    optimize_team (S := Exhaustive.solver) (Enriched Tables.trio) 45000000 2 [1] [1]
    = Ok team.
Proof.
  split; [|split; [|split]].
  - right. right. right. now left.
  - vm_compute. reflexivity.
  - left. exists 1. split; now left.
  - eexists. vm_compute. reflexivity.
Qed.

Section Infeasible.

Context {S : Solver}.

(** C2, amended. [optimize_team] has no infeasibility error: whatever the
    request and the solver's status, the call returns a roster made of
    candidate rows and raises nothing; when no set of candidates meets the
    roster conditions, what it returns does not meet them either.  With an
    exact solver, unique ids, a non-negative budget and no forced-include
    id, a request for a roster of size 0 returns the empty roster. *)
Theorem selection_always_returns (df : DataFrame) (budget team_size : Z)
    (locked_in locked_out : list Z) :
  exists rows team,
    frame_rows df = Ok rows /\
    optimize_team df budget team_size locked_in locked_out = Ok team /\
    (forall e, optimize_team df budget team_size locked_in locked_out <> Raise e) /\
    incl team (candidate_rows rows locked_in) /\
    (NoDup (ids rows) ->
     (forall other,
        incl other (candidate_rows rows locked_in) -> NoDup (ids other) ->
        ~ roster_ok budget team_size locked_in locked_out other) ->
     ~ roster_ok budget team_size locked_in locked_out team) /\
    (ExactSolver S -> NoDup (ids rows) ->
     team_size = 0 -> 0 <= budget -> locked_in = [] -> team = []).
Proof.
  destruct (frame_rows_ok df) as [rows Hrows].
  destruct (optimize_team_picks df rows budget team_size locked_in locked_out Hrows)
    as (team & mask & Hteam & HP).
  assert (incl team (candidate_rows rows locked_in)) as Hincl.
  { intros r Hr. apply (Permutation_in _ HP) in Hr. now apply pick_incl in Hr. }
  exists rows, team.
  split; [exact Hrows|]. split; [exact Hteam|].
  split; [|split; [exact Hincl|split]].
  - intros e. rewrite Hteam. discriminate.
  - intros ND Hnone. apply Hnone; [exact Hincl|].
    apply (Permutation_NoDup (l := ids (pick mask (candidate_rows rows locked_in)))).
    + unfold ids. apply Permutation_map. now symmetry.
    + now apply pick_NoDup_ids, candidate_rows_NoDup.
  - intros E ND Hsize Hbudget Hlock. subst team_size locked_in.
    destruct (optimize_team_exact df rows budget 0 [] locked_out Hrows ND)
      as (team' & Hteam' & (Hlen & _) & _).
    + exists (repeat false (List.length (candidate_rows rows []))).
      split; [apply repeat_length|].
      replace (pick _ _) with (@nil Scored).
      * repeat split; cbn; try lia; try tauto.
      * generalize (candidate_rows rows []) as l.
        induction l as [|x l IH]; [reflexivity | exact IH].
    + rewrite Hteam in Hteam'. injection Hteam' as ->.
      destruct team' as [|x t]; [reflexivity | discriminate].
Qed.

End Infeasible.

(** *** Riders without races (C6) *)

Section ZeroParticipation.

Local Open Scope float_scope.

Lemma no_races_no_points (r : Rider) :
  (forall race, race_ r race = false) ->
  calculate_total_expected_points r = 0.0.
Proof.
  intros H.
  change (calculate_total_expected_points r)
    with (sum_exp_cols (calculate_expected_points r)).
  rewrite (sum_exp_cols_ext _ (fun _ => 0.0))
    by (intros race; now apply calculate_expected_points_absent).
  reflexivity.
Qed.

Lemma enrich_with_scores_In table (r : Rider) :
  In r table ->
  exists rows s,
    enrich_with_scores table = Ok rows /\ In s rows /\ rider s = r /\
    exp_total s = calculate_total_expected_points r /\
    ids rows = map market_rider_id table.
Proof.
  intros Hin. destruct (enrich_with_scores_ok table) as (rows & E & Hm & Hf).
  assert (In r (map (fun s : Scored => rider s) rows)) as Hr by now rewrite Hm.
  apply in_map_iff in Hr as (s & Hs & Hin').
  exists rows, s. repeat split; try assumption.
  - rewrite Forall_forall in Hf. destruct (Hf s Hin') as [_ Ht].
    now rewrite Ht, Hs.
  - unfold ids. rewrite <- Hm, map_map. reflexivity.
Qed.

End ZeroParticipation.

Section ZeroParticipationContract.

Context {S : Solver}.

(** C6. A rider entered in no event has total projected points 0.  Their
    row is not a candidate, hence not in the roster, unless their id is
    forced in; then the row is a candidate, weighs 0 in the objective, and
    (exact solver, feasible request) is in the roster. *)
Theorem zero_participation_rider (table : list Rider) (r : Rider)
    (budget team_size : Z) (locked_in locked_out : list Z) :
  In r table ->
  num_races r = 0 ->
  (forall race, race_ r race = false) ->
  calculate_total_expected_points r = 0.0%float /\
  exists rows s,
    enrich_with_scores table = Ok rows /\ In s rows /\ rider s = r /\
    exp_total s = 0.0%float /\
    (~ In (market_rider_id r) locked_in ->
       ~ In s (candidate_rows rows locked_in) /\
       exists team,
         optimize_team (Plain table) budget team_size locked_in locked_out
         = Ok team /\ ~ In s team) /\
    (In (market_rider_id r) locked_in -> NoDup (map market_rider_id table) ->
       In s (candidate_rows rows locked_in) /\
       (total_points [s] == 0)%Q /\
       (ExactSolver S ->
        (exists other,
           incl other (candidate_rows rows locked_in) /\ NoDup (ids other) /\
           roster_ok budget team_size locked_in locked_out other) ->
        exists team,
          optimize_team (Plain table) budget team_size locked_in locked_out
          = Ok team /\ In s team)).
Proof.
  intros Hin Hnum Hflags.
  pose proof (no_races_no_points r Hflags) as Htotal.
  split; [exact Htotal|].
  destruct (enrich_with_scores_In table r Hin)
    as (rows & s & Hrows & Hs & Hr & Ht & Hids).
  exists rows, s. rewrite Htotal in Ht.
  assert (forall x : Scored, x = s ->
            In x (candidate_rows rows locked_in) ->
            In (market_rider_id r) locked_in) as Horigin.
  { intros x -> Hc. apply candidate_rows_origin in Hc as [Hc|Hc];
      rewrite Hr in Hc; [lia | exact Hc]. }
  split; [exact Hrows|]. split; [exact Hs|]. split; [exact Hr|].
  split; [exact Ht|]. split.
  - intros Hfree. split.
    + intros Hc. now apply Hfree, (Horigin s eq_refl).
    + destruct (optimize_team_incl (Plain table) rows budget team_size
                  locked_in locked_out Hrows) as (team & Hteam & Hincl).
      exists team. split; [exact Hteam|]. intros Hc.
      now apply Hfree, (Horigin s eq_refl), Hincl.
  - intros Hlocked NDt.
    assert (NoDup (ids rows)) as ND by now rewrite Hids.
    split; [|split].
    + apply candidate_rows_locked; [exact ND | exact Hs | now rewrite Hr].
    + unfold total_points. cbn [map Qsum fold_right]. rewrite Ht. reflexivity.
    + intros E (other & Hincl & NDo & Hok).
      pose proof (candidate_rows_NoDup rows locked_in ND) as NDc.
      destruct (optimize_team_exact (Plain table) rows budget team_size
                  locked_in locked_out Hrows ND)
        as (team & Hteam & Hok' & Hincl' & _).
      { destruct (subset_as_mask _ _ NDc Hincl NDo) as (mask & Hlen & HP).
        exists mask. split; [exact Hlen|].
        now apply (roster_ok_perm _ _ _ _ _ _ (Permutation_sym HP)). }
      exists team. split; [exact Hteam|].
      destruct Hok' as (_ & _ & Hforced & _).
      specialize (Hforced (market_rider_id r) Hlocked).
      apply in_ids in Hforced as (x & Hx & Ex).
      assert (x = s) as <-; [|exact Hx].
      apply (same_id_same_row rows x s ND).
      * apply (candidate_rows_incl rows locked_in), Hincl', Hx.
      * exact Hs.
      * now rewrite Ex, Hr.
Qed.

End ZeroParticipationContract.

(** ** Captaincy strategist *)

Section Captaincy.

Local Open Scope float_scope.

Lemma entry_at_late exp k (x : Scored) :
  (3 <= k)%nat ->
  entry_at exp (k, x)
  = {| rank := (k + 1)%nat; rider_name := name x;
       rider_id := market_rider_id x; multiplier := 1.0;
       base_points := exp x; boosted_points := exp x |}.
Proof.
  intros Hk. unfold entry_at. cbn [fst snd].
  assert (Nat.ltb k 3 = false) as Hlt by (apply Nat.ltb_ge; lia).
  rewrite Hlt.
  assert (rank_multiplier (k + 1) = 1.0) as ->; [|reflexivity].
  destruct k as [|[|[|k]]]; try lia. now rewrite Nat.add_1_r.
Qed.

Lemma remaining_loop_from exp k (l : list Scored) :
  (3 <= k)%nat ->
  remaining_loop exp (combine (seq k (List.length l)) l)
  = map (entry_at exp) (combine (seq k (List.length l)) l).
Proof.
  revert k. induction l as [|x l IH]; intros k Hk; [reflexivity|].
  cbn [List.length seq combine remaining_loop map].
  assert (Nat.ltb k 3 = false) as Hlt by (apply Nat.ltb_ge; lia).
  rewrite Hlt, IH by lia.
  now rewrite (entry_at_late exp k x Hk).
Qed.

Lemma kopmannen_loop_from exp k (l : list Scored) :
  (3 <= k)%nat ->
  kopmannen_loop exp (combine (seq k (List.length l)) l) = Ok [].
Proof.
  intros Hk. destruct l as [|x l]; [reflexivity|].
  cbn [List.length seq combine kopmannen_loop].
  assert (Nat.leb 3 k = true) as Hle by (apply Nat.leb_le; lia).
  now rewrite Hle.
Qed.

Lemma loops_eq exp (l : list Scored) :
  (kopmannen <- kopmannen_loop exp (enumerate l) ;;
   Ok (kopmannen ++ remaining_loop exp (enumerate l)))
  = Ok (map (entry_at exp) (enumerate l)).
Proof.
  unfold enumerate.
  destruct l as [|a [|b [|c l]]]; try reflexivity.
  cbn [List.length seq combine kopmannen_loop remaining_loop Nat.leb Nat.ltb
       getitem KOPMAN_MULTIPLIERS Nat.add bind map app].
  rewrite (kopmannen_loop_from exp 3 l) by lia.
  rewrite (remaining_loop_from exp 3 l) by lia.
  reflexivity.
Qed.

Lemma race_strategy_eq team race :
  race_strategy team race
  = Ok (map (entry_at (fun r => exp_ r race)) (enumerate (ranked team race))).
Proof.
  unfold race_strategy, ranked.
  destruct (filter (fun r : Scored => race_ r race) team) as [|x l] eqn:E.
  - reflexivity.
  - cbn [List.length Nat.eqb]. apply loops_eq.
Qed.

Lemma mapM_ok {A B : Type} (f : A -> result B) (g : A -> B) l :
  (forall a, f a = Ok (g a)) -> mapM f l = Ok (map g l).
Proof.
  intros H. induction l as [|a l IH]; [reflexivity|].
  cbn [mapM map]. now rewrite H, IH.
Qed.

Lemma calculate_kopman_strategy_eq team :
  calculate_kopman_strategy team
  = Ok (map (fun race =>
               (race, map (entry_at (fun r => exp_ r race))
                          (enumerate (ranked team race))))
            races).
Proof.
  unfold calculate_kopman_strategy. apply mapM_ok.
  intros race. now rewrite race_strategy_eq.
Qed.

Lemma strategy_get_map (f : race -> list KopmanEntry) race :
  strategy_get (map (fun r => (r, f r)) races) race = Some (f race).
Proof. destruct race; reflexivity. Qed.

Lemma race_eqb_eq a b : race_eqb a b = true <-> a = b.
Proof. split; [destruct a, b; (reflexivity || discriminate) | intros ->; now destruct b]. Qed.

Lemma insert_desc_sorted key x l :
  (key x <=? key x) = true ->
  Forall (fun y => (key y <=? key y) = true) l ->
  StronglySorted (descending key) l ->
  StronglySorted (descending key) (insert_desc key x l).
Proof.
  intros Hx Hl Hs. induction Hs as [|y l Hs IH Hy]; cbn [insert_desc].
  - repeat constructor.
  - inversion Hl as [|? ? Hyy Hl']; subst.
    destruct (key y <=? key x) eqn:Hle.
    + constructor; [now constructor|].
      constructor; [exact Hle|].
      rewrite Forall_forall in Hy |- *. intros z Hz.
      exact (FloatOrder.leb_trans _ _ _ (Hy z Hz) Hle).
    + constructor; [now apply IH|].
      rewrite Forall_forall in Hy |- *. intros z Hz.
      apply (Permutation_in _ (insert_desc_perm key x l)) in Hz as [<-|Hz].
      * now apply FloatOrder.leb_total.
      * now apply Hy.
Qed.

Lemma sort_values_desc_sorted key l :
  Forall (fun y => (key y <=? key y) = true) l ->
  StronglySorted (descending key) (sort_values_desc key l).
Proof.
  induction 1 as [|x l Hx Hl IH]; cbn [sort_values_desc fold_right];
    [constructor|].
  apply insert_desc_sorted; [exact Hx | | exact IH].
  rewrite Forall_forall in Hl |- *. intros y Hy. apply Hl.
  now apply (Permutation_in _ (sort_values_desc_perm key l)).
Qed.

Lemma tier_not_nan x : In x tiers -> (x <=? x) = true.
Proof.
  unfold tiers. cbn [In]. intros H.
  repeat destruct H as [H|H]; try contradiction; now rewrite <- H.
Qed.

Lemma tier_times_one x : In x tiers -> x * 1.0 = x.
Proof.
  unfold tiers. cbn [In]. intros H.
  repeat destruct H as [H|H]; try contradiction; now rewrite <- H.
Qed.

Lemma enumerate_length {A : Type} (l : list A) :
  List.length (enumerate l) = List.length l.
Proof.
  unfold enumerate. rewrite length_combine, length_seq. apply Nat.min_id.
Qed.

Lemma enumerate_fst {A : Type} (l : list A) :
  map fst (enumerate l) = seq 0 (List.length l).
Proof.
  unfold enumerate. generalize 0%nat as k.
  induction l as [|x l IH]; intros k; [reflexivity|].
  cbn [List.length seq combine map fst]. now rewrite IH.
Qed.

Lemma enumerate_snd {A : Type} (l : list A) : map snd (enumerate l) = l.
Proof.
  unfold enumerate. generalize 0%nat as k.
  induction l as [|x l IH]; intros k; [reflexivity|].
  cbn [List.length seq combine map snd]. now rewrite IH.
Qed.

End Captaincy.

(** *** The assignment (C7, C8) *)

Section CaptaincyContract.

Local Open Scope float_scope.

Lemma ranked_perm team race :
  Permutation (ranked team race) (filter (fun r : Scored => race_ r race) team).
Proof. apply sort_values_desc_perm. Qed.

Lemma ranked_tier team race (r : Scored) :
  Forall scored_by_model team -> In r (ranked team race) ->
  In (exp_ r race) tiers.
Proof.
  intros Hm Hr. apply (Permutation_in _ (ranked_perm team race)) in Hr.
  apply filter_In in Hr as [Hr _].
  rewrite Forall_forall in Hm. rewrite (Hm r Hr race).
  apply calculate_expected_points_tier.
Qed.

Lemma ranked_sorted team race :
  Forall scored_by_model team ->
  StronglySorted (descending (fun r : Scored => exp_ r race)) (ranked team race).
Proof.
  intros Hm. apply sort_values_desc_sorted.
  rewrite Forall_forall in Hm |- *. intros r Hr.
  apply filter_In in Hr as [Hr _]. apply tier_not_nan.
  rewrite (Hm r Hr race). apply calculate_expected_points_tier.
Qed.

(** C7. For a roster scored by the model and any event, the assignment
    lists the participating members in descending order of their projected
    points for the event, with ranks 1, 2, 3, ...; ranks 1, 2, 3 carry the
    multipliers 3.0, 2.5, 2.0 and every rank from 4 on carries exactly 1.0,
    whatever the ties; each entry's boosted points are its base points times
    its multiplier. *)
Theorem captaincy_assignment (team : list Scored) (race : race) :
  Forall scored_by_model team ->
  exists strategy entries,
    calculate_kopman_strategy team = Ok strategy /\
    strategy_get strategy race = Some entries /\
    Permutation (ranked team race)
                (filter (fun r : Scored => race_ r race) team) /\
    StronglySorted (descending (fun r : Scored => exp_ r race))
                   (ranked team race) /\
    map rank entries = seq 1 (List.length (ranked team race)) /\
    map rider_id entries = ids (ranked team race) /\
    map base_points entries
    = map (fun r : Scored => exp_ r race) (ranked team race) /\
    Forall
      (fun e =>
         (rank e = 1%nat -> multiplier e = 3.0) /\
         (rank e = 2%nat -> multiplier e = 2.5) /\
         (rank e = 3%nat -> multiplier e = 2.0) /\
         ((4 <= rank e)%nat -> multiplier e = 1.0) /\
         boosted_points e = base_points e * multiplier e)
      entries.
Proof.
  intros Hm. rewrite calculate_kopman_strategy_eq.
  eexists. eexists. split; [reflexivity|].
  split; [apply (strategy_get_map
                   (fun x => map (entry_at (fun r => exp_ r x))
                                 (enumerate (ranked team x))))|].
  set (top := ranked team race). set (exp := fun r : Scored => exp_ r race).
  split; [apply ranked_perm|].
  split; [now apply ranked_sorted|].
  split; [|split; [|split]].
  - rewrite map_map. cbn [entry_at rank].
    rewrite <- seq_shift, <- (enumerate_fst top), map_map.
    apply map_ext. intros [i r]. cbn [fst]. lia.
  - rewrite map_map. cbn [entry_at rider_id].
    unfold ids. rewrite <- (enumerate_snd top) at 2. now rewrite map_map.
  - rewrite map_map. cbn [entry_at base_points].
    rewrite <- (enumerate_snd top) at 2. now rewrite map_map.
  - apply Forall_forall. intros e He.
    apply in_map_iff in He as ([i r] & <- & Hir).
    apply in_enumerate, nth_error_In in Hir.
    pose proof (ranked_tier team race r Hm Hir) as Htier.
    destruct (Nat.ltb i 3) eqn:Hi.
    + apply Nat.ltb_lt in Hi. unfold entry_at.
      cbn [fst snd rank multiplier base_points boosted_points].
      assert (Nat.ltb i 3 = true) as -> by (apply Nat.ltb_lt; lia).
      destruct i as [|[|[|i]]]; try lia;
        cbn [Nat.add rank_multiplier]; repeat split; intros; try lia;
        reflexivity.
    + apply Nat.ltb_ge in Hi. rewrite (entry_at_late _ i r Hi).
      cbn [rank multiplier base_points boosted_points].
      repeat split; intros; try lia; try reflexivity.
      symmetry. now apply tier_times_one.
Qed.

Lemma filter_none {A : Type} (f : A -> bool) (l : list A) :
  (forall x, In x l -> f x = false) -> filter f l = [].
Proof.
  induction l as [|x l IH]; intros H; [reflexivity|].
  cbn [filter]. rewrite (H x (or_introl eq_refl)).
  apply IH. intros y Hy. apply H. now right.
Qed.

Lemma total_skips_empty (strategy : list (race * list KopmanEntry)) race acc :
  (forall item, In item strategy -> race_eqb (fst item) race = true ->
                snd item = []) ->
  fold_left (fun total item => add_boosted total (snd item)) strategy acc
  = fold_left (fun total item => add_boosted total (snd item))
              (filter (fun item => negb (race_eqb (fst item) race)) strategy)
              acc.
Proof.
  revert acc. induction strategy as [|item strategy IH]; intros acc H;
    [reflexivity|].
  cbn [fold_left filter].
  destruct (race_eqb (fst item) race) eqn:E; cbn [negb fold_left].
  - rewrite (H item (or_introl eq_refl) E). cbn [add_boosted fold_left].
    apply IH. intros it Hit. apply H. now right.
  - apply IH. intros it Hit. apply H. now right.
Qed.

(** C8. For an event no roster member rides, the assignment is the empty
    list and the call returns; the event adds nothing to the season boosted
    total, and dropping it changes neither that total nor the bonus. *)
Theorem empty_event_assignment (team : list Scored) (race : race) :
  (forall r : Scored, In r team -> race_ r race = false) ->
  exists strategy,
    calculate_kopman_strategy team = Ok strategy /\
    strategy_get strategy race = Some [] /\
    (forall total, add_boosted total [] = total) /\
    calculate_team_total_with_kopmannen team strategy
    = calculate_team_total_with_kopmannen team
        (filter (fun item => negb (race_eqb (fst item) race)) strategy) /\
    kopman_bonus team strategy
    = kopman_bonus team
        (filter (fun item => negb (race_eqb (fst item) race)) strategy).
Proof.
  intros Hnone. rewrite calculate_kopman_strategy_eq.
  set (f := fun x => map (entry_at (fun r => exp_ r x)) (enumerate (ranked team x))).
  assert (f race = []) as Hf.
  { subst f. cbv beta. unfold ranked.
    now rewrite (filter_none _ team Hnone). }
  exists (map (fun x => (x, f x)) races).
  split; [reflexivity|].
  split; [rewrite strategy_get_map, Hf; reflexivity|].
  split; [reflexivity|].
  assert (calculate_team_total_with_kopmannen team (map (fun x => (x, f x)) races)
          = calculate_team_total_with_kopmannen team
              (filter (fun item => negb (race_eqb (fst item) race))
                      (map (fun x => (x, f x)) races))) as Ht.
  { unfold calculate_team_total_with_kopmannen. apply total_skips_empty.
    intros item Hitem E. apply in_map_iff in Hitem as (x & <- & _).
    cbn [fst snd] in *. apply race_eqb_eq in E. now rewrite E. }
  split; [exact Ht|]. unfold kopman_bonus. now rewrite <- Ht.
Qed.

End CaptaincyContract.

(** ** The contracts on the example tables *)

Section OnExamples.

Import Tables Squad.

Lemma trio_ids_NoDup : NoDup (ids trio).
Proof.
  change (ids trio) with [1; 2; 3].
  repeat constructor; cbn [In]; intuition discriminate.
Qed.

Lemma trio_candidates : candidate_rows trio [] = trio.
Proof. reflexivity. Qed.

(** The design's end-to-end example: budget 45M, two riders out of three
    priced 30M / 15M / 10M with 50 / 30 / 15 points; riders 1 and 2 win. *)
Example end_to_end_selection :
  exists team,
    optimize_team (S := Exhaustive.solver) (Enriched trio) 45000000 2 [] []
    = Ok team /\ ids team = [1; 2].
Proof. eexists. split; vm_compute; reflexivity. Qed.

Lemma optimal_roster_witness :
  exists team,
    optimize_team (S := Exhaustive.solver) (Enriched trio) 45000000 2 [] []
    = Ok team /\
    roster_ok 45000000 2 [] [] team /\
    incl team (candidate_rows trio []) /\
    forall other,
      incl other (candidate_rows trio []) -> NoDup (ids other) ->
      roster_ok 45000000 2 [] [] other ->
      (total_points other <= total_points team)%Q.
Proof.
  apply (optimal_roster (S := Exhaustive.solver) (E := ExhaustiveFacts.exact)
           (Enriched trio) trio 45000000 2 [] []).
  - reflexivity.
  - exact trio_ids_NoDup.
  - exists [row 1 30000000 5 50.0; row 2 15000000 4 30.0].
    split; [|split].
    + rewrite trio_candidates. intros x [<-|[<-|[]]]; cbn [trio In]; auto.
    + change (NoDup [1; 2]). repeat constructor; cbn [In]; intuition discriminate.
    + repeat split; cbn; try lia; tauto.
Defined.

Lemma unknown_lock_ids_ignored_witness :
  ~ In 99 (ids trio) /\
  optimize_team (S := Exhaustive.solver) (Enriched trio) 45000000 2 [99] [99; 3]
  = optimize_team (S := Exhaustive.solver) (Enriched trio) 45000000 2
      (remove Z.eq_dec 99 [99]) (remove Z.eq_dec 99 [99; 3]).
Proof.
  assert (~ In 99 (ids trio)) as Hn.
  { change (ids trio) with [1; 2; 3]. cbn [In]. intuition discriminate. }
  split; [exact Hn|].
  exact (proj1 (proj2 (unknown_lock_ids_ignored (S := Exhaustive.solver)
                         (Enriched trio) trio 45000000 2 [99] [99; 3] 99
                         eq_refl Hn))).
Defined.

Lemma zero_participation_rider_witness :
  In reserve peloton /\ num_races reserve = 0 /\
  calculate_total_expected_points reserve = 0.0%float /\
  exists rows s,
    enrich_with_scores peloton = Ok rows /\ In s rows /\ rider s = reserve /\
    exp_total s = 0.0%float.
Proof.
  assert (In reserve peloton) as Hin by (right; now left).
  destruct (zero_participation_rider (S := Exhaustive.solver) peloton reserve
              50000000 2 [2] [] Hin eq_refl (fun _ => eq_refl))
    as (Htotal & rows & s & Hrows & Hs & Hr & Ht & _).
  split; [exact Hin|]. split; [reflexivity|]. split; [exact Htotal|].
  exists rows, s. auto.
Defined.

(** The raw score is the double the interpreter computes.  At hill = punch
    = 3 in the Brabantse Pijl (weight 0.5) the real value is 1.5, the double
    is just below it, and the tier is the one of the double: 0.5 points. *)
Example score_just_below_a_tier :
  ((inject_Z 3 * (7 # 10) + inject_Z 3 * (3 # 10)) * (5 # 10) == 3 # 2)%Q /\
  (calculate_race_score (puncheur 21 3 3) brabantse_pijl <? 1.5)%float = true /\
  calculate_expected_points (puncheur 21 3 3) brabantse_pijl = 0.5%float.
Proof. repeat split; vm_compute; reflexivity. Qed.

Lemma squad_scored : Forall scored_by_model squad.
Proof. repeat constructor. Qed.

(** On the cobbles of the Ronde: 28, 28, 28 (ties), 7, 2 projected
    points, multipliers 3.0, 2.5, 2.0, 1.0, 1.0.  Riders 12, 13 and 15 are
    tied and share the three boosts in an order the sort does not fix;
    riders 11 and 14 follow. *)
Example ronde_assignment :
  exists entries,
    race_strategy squad ronde_van_vlaanderen = Ok entries /\
    Permutation (map rider_id (firstn 3 entries)) [12; 13; 15] /\
    map rider_id (skipn 3 entries) = [11; 14] /\
    map base_points entries = [28.0; 28.0; 28.0; 7.0; 2.0]%float /\
    map multiplier entries = [3.0; 2.5; 2.0; 1.0; 1.0]%float /\
    map boosted_points entries = [84.0; 70.0; 56.0; 7.0; 2.0]%float.
Proof.
  eexists. split; [vm_compute; reflexivity|].
  split; [apply Permutation_refl|]. repeat split.
Qed.

Lemma captaincy_assignment_witness :
  Forall scored_by_model squad /\
  exists strategy entries,
    calculate_kopman_strategy squad = Ok strategy /\
    strategy_get strategy ronde_van_vlaanderen = Some entries /\
    map rank entries = seq 1 (List.length (ranked squad ronde_van_vlaanderen)) /\
    Forall
      (fun e =>
         (rank e = 1%nat -> multiplier e = 3.0%float) /\
         (rank e = 2%nat -> multiplier e = 2.5%float) /\
         (rank e = 3%nat -> multiplier e = 2.0%float) /\
         ((4 <= rank e)%nat -> multiplier e = 1.0%float) /\
         boosted_points e = (base_points e * multiplier e)%float)
      entries.
Proof.
  split; [exact squad_scored|].
  destruct (captaincy_assignment squad ronde_van_vlaanderen squad_scored)
    as (strategy & entries & Hs & Hg & _ & _ & Hrank & _ & _ & Hall).
  exists strategy, entries. auto.
Defined.

Lemma empty_event_assignment_witness :
  (forall r : Scored, In r squad -> race_ r luik = false) /\
  exists strategy,
    calculate_kopman_strategy squad = Ok strategy /\
    strategy_get strategy luik = Some [].
Proof.
  assert (forall r : Scored, In r squad -> race_ r luik = false) as Hnone.
  { intros r Hr. unfold squad in Hr. cbn [map In] in Hr.
    repeat destruct Hr as [Hr|Hr]; try contradiction; now rewrite <- Hr. }
  split; [exact Hnone|].
  destruct (empty_event_assignment squad luik Hnone) as (strategy & Hs & Hg & _).
  exists strategy. auto.
Defined.

End OnExamples.

(** * Further properties of the scoring model *)

Section ScoringMore.

Local Open Scope float_scope.
Import FloatOrder.

(** The step function is monotone: a raw score that is not lower never
    gives fewer projected points. *)
Theorem expected_points_monotone (row row' : Rider) (race race' : race) :
  (calculate_race_score row race <=? calculate_race_score row' race') = true ->
  (calculate_expected_points row race <=? calculate_expected_points row' race')
  = true.
Proof.
  unfold calculate_expected_points.
  generalize (calculate_race_score row race) as s.
  generalize (calculate_race_score row' race') as s'.
  intros s' s Hle.
  repeat match goal with
  | |- context [if ?c then _ else _] => destruct c eqn:?
  end;
  try reflexivity;
  repeat match goal with
  | H1 : (?c <=? s) = true |- _ =>
      lazymatch goal with
      | _ : (c <=? s') = true |- _ => fail
      | _ => pose proof (leb_trans _ _ _ H1 Hle)
      end
  | H2 : (s' <=? ?c) = true |- _ =>
      lazymatch goal with
      | _ : (s <=? c) = true |- _ => fail
      | _ => pose proof (leb_trans _ _ _ Hle H2)
      end
  end;
  congruence.
Qed.

End ScoringMore.

Section GridFacts.

Local Open Scope float_scope.

Lemma on_grid_sound check race m p s :
  on_grid check = true ->
  RACE_QUALITY_MAP race = Some m -> In p grid -> In s grid ->
  check m p s = true.
Proof.
  unfold on_grid. rewrite forallb_forall. intros H Hm Hp Hs.
  specialize (H race (races_complete race)). rewrite Hm in H.
  rewrite forallb_forall in H. specialize (H p Hp).
  rewrite forallb_forall in H. exact (H s Hs).
Qed.

Lemma secondary_cell_grid row m :
  (forall q, (0 <= q_ row q <= 10)%Z) -> In (secondary_cell row m) grid.
Proof.
  intros H. apply in_grid. unfold secondary_cell.
  destruct (secondary m); [apply H | lia].
Qed.

(** The raw score of a starter, on the two cells the event reads. *)
Lemma race_score_of_cells row race m :
  RACE_QUALITY_MAP race = Some m ->
  race_score_of row race
  = score_formula (q_ row (primary m)) (secondary_cell row m) (event_weight m).
Proof.
  intros Hm. unfold race_score_of, weighted_quality, score_formula, secondary_cell.
  rewrite Hm. now destruct (secondary m).
Qed.

Lemma catalog_total race : exists m, RACE_QUALITY_MAP race = Some m.
Proof. destruct race; eexists; reflexivity. Qed.

(** The projected points of a starter, in half points. *)
Lemma starter_points row race m :
  race_ row race = true -> RACE_QUALITY_MAP race = Some m ->
  calculate_expected_points row race
  = half (grid_points m (q_ row (primary m)) (secondary_cell row m)).
Proof.
  intros Hs Hm. rewrite calculate_expected_points_half.
  rewrite (calculate_race_score_present _ _ Hs).
  now rewrite (race_score_of_cells _ _ _ Hm).
Qed.

Lemma absent_points row race :
  race_ row race = false -> calculate_expected_points row race = half 0.
Proof. intros H. now rewrite calculate_expected_points_absent. Qed.

Lemma grid_points_tier m p s : In (grid_points m p s) half_tiers.
Proof. apply half_points_tier. Qed.

(** [half] keeps the order of the six tiers. *)
Lemma half_tiers_ordered a b :
  In a half_tiers -> In b half_tiers -> (a <= b)%Z ->
  (half a <=? half b) = true.
Proof.
  unfold half_tiers. cbn [In]. intros Ha Hb Hab.
  repeat destruct Ha as [Ha|Ha]; try contradiction;
    repeat destruct Hb as [Hb|Hb]; try contradiction;
    subst a b; try lia; reflexivity.
Qed.

Lemma grid_monotone_ok : grid_monotone = true.
Proof. vm_compute. reflexivity. Qed.

Lemma grid_zero_ok : grid_zero = true.
Proof. vm_compute. reflexivity. Qed.

Lemma grid_points_monotone race m p s p' s' :
  RACE_QUALITY_MAP race = Some m ->
  In p grid -> In s grid -> In p' grid -> In s' grid ->
  (p <= p')%Z -> (s <= s')%Z ->
  (grid_points m p s <= grid_points m p' s')%Z.
Proof.
  intros Hm Hp Hs Hp' Hs' Hpp Hss.
  pose proof (on_grid_sound _ race m p s grid_monotone_ok Hm Hp Hs) as H.
  cbv beta in H. rewrite forallb_forall in H. specialize (H p' Hp').
  rewrite forallb_forall in H. specialize (H s' Hs').
  apply orb_true_iff in H as [H|H].
  - apply negb_true_iff, andb_false_iff in H as [H|H];
      apply Z.leb_gt in H; lia.
  - now apply Z.leb_le.
Qed.

End GridFacts.

Section RatingsAndPoints.

Local Open Scope float_scope.

(** Higher ratings never cost points: a rider rated at least as high on
    every quality, entered in the event whenever the other is, is projected
    at least as many points for it. *)
Theorem better_ratings_never_score_less (row row' : Rider) (race : race) :
  (forall q, (0 <= q_ row q)%Z /\ (q_ row q <= q_ row' q)%Z /\ (q_ row' q <= 10)%Z) ->
  (race_ row race = true -> race_ row' race = true) ->
  (calculate_expected_points row race <=? calculate_expected_points row' race)
  = true.
Proof.
  intros Hq Hflag.
  assert (forall q, (0 <= q_ row q <= 10)%Z) as Hrow
    by (intros q; specialize (Hq q); lia).
  assert (forall q, (0 <= q_ row' q <= 10)%Z) as Hrow'
    by (intros q; specialize (Hq q); lia).
  destruct (catalog_total race) as [m Hm].
  destruct (race_ row race) eqn:Hs.
  - rewrite (starter_points _ _ _ Hs Hm), (starter_points _ _ _ (Hflag eq_refl) Hm).
    apply half_tiers_ordered; try apply grid_points_tier.
    apply (grid_points_monotone race); auto using in_grid, secondary_cell_grid.
    + apply Hq.
    + unfold secondary_cell. destruct (secondary m); [apply Hq | lia].
  - rewrite (absent_points _ _ Hs).
    destruct (race_ row' race) eqn:Hs'.
    + rewrite (starter_points _ _ _ Hs' Hm).
      apply half_tiers_ordered; try apply grid_points_tier.
      * now left.
      * pose proof (grid_points_tier m (q_ row' (primary m)) (secondary_cell row' m)) as H.
        unfold half_tiers in H. cbn [In] in H. lia.
    + now rewrite (absent_points _ _ Hs').
Qed.

(** A starter rated on the scale scores 0 points exactly when both ratings
    the event reads are 0; otherwise at least 0.5. *)
Theorem starter_scores_unless_unrated (row : Rider) (race : race) (m : mapping) :
  (forall q, (0 <= q_ row q <= 10)%Z) ->
  race_ row race = true ->
  RACE_QUALITY_MAP race = Some m ->
  ((calculate_expected_points row race =? 0) = true <->
   q_ row (primary m) = 0%Z /\ secondary_cell row m = 0%Z) /\
  ((calculate_expected_points row race =? 0) = false ->
   (0.5 <=? calculate_expected_points row race) = true).
Proof.
  intros Hq Hs Hm. rewrite (starter_points _ _ _ Hs Hm).
  pose proof (on_grid_sound _ race m _ _ grid_zero_ok Hm
                (in_grid _ (Hq (primary m))) (secondary_cell_grid row m Hq)) as Hz.
  cbv beta in Hz. apply Bool.eqb_prop in Hz.
  pose proof (grid_points_tier m (q_ row (primary m)) (secondary_cell row m)) as Ht.
  set (k := grid_points m (q_ row (primary m)) (secondary_cell row m)) in *.
  assert ((half k =? 0) = (k =? 0)%Z) as Hk.
  { unfold half_tiers in Ht. cbn [In] in Ht.
    repeat destruct Ht as [Ht|Ht]; try contradiction; rewrite <- Ht; reflexivity. }
  split.
  - rewrite Hk, Hz, andb_true_iff, !Z.eqb_eq. tauto.
  - intros Hne. rewrite Hk in Hne.
    unfold half_tiers in Ht. cbn [In] in Ht.
    repeat destruct Ht as [Ht|Ht]; try contradiction; rewrite <- Ht in *;
      (reflexivity || discriminate).
Qed.

End RatingsAndPoints.

Section Caps.

Local Open Scope float_scope.

Lemma event_cap_tier race : In (event_cap race) half_tiers.
Proof.
  unfold event_cap. destruct (RACE_QUALITY_MAP race); [apply grid_points_tier|].
  now left.
Qed.

Lemma half_points_capped row race :
  (forall q, (0 <= q_ row q <= 10)%Z) ->
  (half_points (calculate_race_score row race) <= event_cap race)%Z.
Proof.
  intros Hq. destruct (race_ row race) eqn:Hs.
  - destruct (catalog_total race) as [m Hm].
    rewrite (calculate_race_score_present _ _ Hs), (race_score_of_cells _ _ _ Hm).
    unfold event_cap. rewrite Hm.
    apply (grid_points_monotone race); auto using in_grid, secondary_cell_grid.
    + apply in_grid. lia.
    + apply in_grid. destruct (secondary m); lia.
    + apply Hq.
    + unfold secondary_cell. destruct (secondary m); [apply Hq | lia].
  - rewrite (calculate_race_score_absent _ _ Hs).
    pose proof (event_cap_tier race) as H. unfold half_tiers in H. cbn [In] in H.
    change (half_points 0) with 0%Z. lia.
Qed.

Lemma Zsum_le (f g : race -> Z) (l : list race) :
  (forall r, (f r <= g r)%Z) -> (Zsum (map f l) <= Zsum (map g l))%Z.
Proof.
  intros H. induction l as [|r l IH]; [reflexivity|].
  cbn [map]. change (Zsum (?x :: ?t)) with (x + Zsum t)%Z.
  specialize (H r). lia.
Qed.

(** On the scale, an event yields at most what a rider rated 10 on its
    qualities gets, 28 points in seven events and 15 or 7 in the others, and
    a season at most 314 points. *)
Theorem points_capped_by_event (row : Rider) :
  (forall q, (0 <= q_ row q <= 10)%Z) ->
  (forall race,
     (calculate_expected_points row race <=? half (event_cap race)) = true) /\
  map (fun race => half (event_cap race)) races
  = [28; 15; 7; 7; 28; 15; 7; 28; 15; 15; 28; 7; 15; 15; 28; 28; 28] /\
  (calculate_total_expected_points row <=? 314) = true.
Proof.
  intros Hq. split; [|split].
  - intros race. rewrite calculate_expected_points_half.
    apply half_tiers_ordered;
      [apply half_points_tier | apply event_cap_tier | now apply half_points_capped].
  - reflexivity.
  - rewrite total_half.
    pose proof (Zsum_le (fun r => half_points (calculate_race_score row r))
                  event_cap races (fun r => half_points_capped row r Hq)) as Hle.
    pose proof (Zsum_half_points_bounds
                  (fun r => half_points (calculate_race_score row r)) races
                  (fun r => half_points_tier _)) as [H0 _].
    change (Zsum (map event_cap races)) with 628%Z in Hle.
    assert (season_within = true) as Hs by (vm_compute; reflexivity).
    unfold season_within in Hs. rewrite forallb_forall in Hs.
    apply Hs, in_Zrange.
    change (Z.of_nat 629) with 629%Z. lia.
Qed.

(** The caps are reached: a rider rated 10 everywhere and entered everywhere
    is projected 314 points. *)
Example season_cap_reached :
  calculate_total_expected_points Examples.flandrien = 314.
Proof. reflexivity. Qed.

Lemma points_capped_by_event_witness :
  (forall q, (0 <= q_ Examples.flandrien q <= 10)%Z) /\
  (calculate_expected_points Examples.flandrien paris_roubaix <=? 15) = true /\
  (calculate_total_expected_points Examples.flandrien <=? 314) = true.
Proof.
  assert (forall q, (0 <= q_ Examples.flandrien q <= 10)%Z) as H
    by (intros q; cbn; lia).
  split; [exact H|].
  destruct (points_capped_by_event Examples.flandrien H) as (Hc & _ & Ht).
  split; [exact (Hc paris_roubaix) | exact Ht].
Defined.

End Caps.

Section RiddenRaces.

Lemma Zsum_ridden (hp : race -> Z) (flag : race -> bool) (l : list race) :
  (forall r, (hp r <= 56)%Z) -> (forall r, flag r = false -> hp r = 0%Z) ->
  (Zsum (map hp l) <= 56 * Z.of_nat (List.length (filter flag l)))%Z.
Proof.
  intros Hle Hz. induction l as [|r l IH]; [reflexivity|].
  cbn [map filter]. change (Zsum (?x :: ?t)) with (x + Zsum t)%Z.
  destruct (flag r) eqn:Hf.
  - cbn [List.length]. specialize (Hle r). lia.
  - rewrite (Hz r Hf). lia.
Qed.

(** A rider is projected at most 28 points per race ridden, and none for a
    race that [get_rider_races] does not list. *)
Theorem total_bounded_by_races_ridden (row : Rider) :
  (F2Q (calculate_total_expected_points row)
   <= 28 * inject_Z (Z.of_nat (List.length (get_rider_races row))))%Q /\
  (forall race, In race (get_rider_races row) <-> race_ row race = true) /\
  (forall race, ~ In race (get_rider_races row) ->
                calculate_expected_points row race = 0%float).
Proof.
  assert (forall race, In race (get_rider_races row) <-> race_ row race = true)
    as Hin.
  { intros race. unfold get_rider_races. rewrite filter_In.
    split; [now intros [_ H] | intros H; split; [apply races_complete | exact H]]. }
  split; [|split; [exact Hin|]].
  - rewrite total_half.
    set (hp := fun r => half_points (calculate_race_score row r)).
    pose proof (Zsum_half_points_bounds hp races (fun r => half_points_tier _))
      as B.
    change (Z.of_nat (List.length races)) with 17%Z in B.
    rewrite F2Q_half by lia.
    pose proof (Zsum_ridden hp (fun short_name => race_ row short_name) races)
      as Hr.
    unfold get_rider_races.
    assert (Zsum (map hp races)
            <= 56 * Z.of_nat (List.length
                                (filter (fun short_name => race_ row short_name)
                                        races)))%Z as Hb.
    { apply Hr.
      - intros r. pose proof (half_points_tier (calculate_race_score row r)) as H.
        unfold half_tiers in H. cbn [In] in H. subst hp. cbv beta. lia.
      - intros r Hf. subst hp. cbv beta.
        now rewrite (calculate_race_score_absent _ _ Hf). }
    unfold Qle. cbn [Qnum Qden Qmult inject_Z].
    change (Z.pos (1 * 1)) with 1%Z. lia.
  - intros race Hn. apply calculate_expected_points_absent.
    destruct (race_ row race) eqn:Hf; [|reflexivity].
    exfalso. now apply Hn, Hin.
Qed.

End RiddenRaces.

(** * Further properties of the roster selector *)

Section SelectorMore.

Context {S : Solver}.

Lemma half_not_nan k : (0 <= k <= 952)%Z -> not_nan (half k).
Proof.
  intros Hk. unfold not_nan.
  assert (forallb (fun k => PrimFloat.leb (half k) (half k)) (Zrange 953) = true)
    as H by (vm_compute; reflexivity).
  rewrite forallb_forall in H. apply H, in_Zrange.
  change (Z.of_nat 953) with 953. lia.
Qed.

Lemma total_not_nan (row : Rider) : not_nan (calculate_total_expected_points row).
Proof.
  rewrite total_half. apply half_not_nan.
  pose proof (Zsum_half_points_bounds
                (fun r => half_points (calculate_race_score row r)) races
                (fun r => half_points_tier _)) as B.
  change (Z.of_nat (List.length races)) with 17 in B. lia.
Qed.

Lemma frame_rows_not_nan table rows :
  frame_rows (Plain table) = Ok rows ->
  Forall (fun r : Scored => not_nan (exp_total r)) rows.
Proof.
  cbn [frame_rows]. intros Hrows.
  destruct (enrich_with_scores_ok table) as (df & E & _ & Hf).
  rewrite E in Hrows. injection Hrows as <-.
  eapply Forall_impl; [|exact Hf].
  intros s [_ Ht]. rewrite Ht. apply total_not_nan.
Qed.

(** The roster comes back best first: in descending order of [exp_total],
    whatever the solver answered, on a table scored by the model and on any
    frame whose totals are numbers. *)
Theorem roster_in_descending_order (df : DataFrame) (rows : list Scored)
    (budget team_size : Z) (locked_in locked_out : list Z) :
  frame_rows df = Ok rows ->
  (exists table, df = Plain table) \/
  Forall (fun r : Scored => not_nan (exp_total r)) rows ->
  exists team,
    optimize_team df budget team_size locked_in locked_out = Ok team /\
    StronglySorted (descending exp_total) team.
Proof.
  intros Hrows Hnum.
  assert (Forall (fun r : Scored => not_nan (exp_total r)) rows) as Hf.
  { destruct Hnum as [[table ->]|H];
      [now apply (frame_rows_not_nan table) | exact H]. }
  rewrite (optimize_team_eq _ _ _ _ _ _ Hrows). cbv zeta.
  eexists. split; [reflexivity|].
  apply sort_values_desc_sorted.
  rewrite Forall_forall in Hf |- *. intros r Hr.
  apply Hf. apply pick_incl in Hr.
  now apply (candidate_rows_incl rows locked_in).
Qed.

(** Whatever the solver answered, the roster holds no rider twice, only
    rows of the table, and no rider without races unless locked in; it is
    never longer than the candidate pool. *)
Theorem roster_is_a_set_of_candidates (df : DataFrame) (rows : list Scored)
    (budget team_size : Z) (locked_in locked_out : list Z) :
  frame_rows df = Ok rows ->
  NoDup (ids rows) ->
  exists team,
    optimize_team df budget team_size locked_in locked_out = Ok team /\
    NoDup (ids team) /\
    incl team rows /\
    (forall r : Scored, In r team ->
       0 < num_races r \/ In (market_rider_id r) locked_in) /\
    (List.length team <= List.length (candidate_rows rows locked_in))%nat.
Proof.
  intros Hrows ND.
  destruct (optimize_team_picks df rows budget team_size locked_in locked_out
              Hrows) as (team & mask & Hteam & HP).
  exists team. split; [exact Hteam|].
  assert (incl team (candidate_rows rows locked_in)) as Hincl.
  { intros r Hr. apply (Permutation_in _ HP) in Hr. now apply pick_incl in Hr. }
  split; [|split; [|split]].
  - apply (Permutation_NoDup (l := ids (pick mask (candidate_rows rows locked_in)))).
    + unfold ids. apply Permutation_map. now symmetry.
    + now apply pick_NoDup_ids, candidate_rows_NoDup.
  - intros r Hr. now apply (candidate_rows_incl rows locked_in), Hincl.
  - intros r Hr. now apply (candidate_rows_origin rows locked_in), Hincl.
  - rewrite (Permutation_length HP). apply pick_length_le.
Qed.

End SelectorMore.

Section PoolShape.

Lemma locked_id_in_pool rows locked_in rid :
  In rid locked_in -> In rid (ids rows) ->
  In rid (ids (candidate_rows rows locked_in)).
Proof.
  intros Hin Hrows. rewrite candidate_rows_fold.
  apply in_split in Hin as (l1 & l2 & ->).
  rewrite fold_left_app. cbn [fold_left].
  set (c := fold_left (add_locked rows) l1 _).
  assert (In rid (ids (add_locked rows c rid))) as Hstep.
  { unfold add_locked. destruct (has_id rid c) eqn:Hid; cbn [negb].
    - now apply has_id_In.
    - apply in_ids in Hrows as (r & Hr & E). apply in_ids. exists r.
      split; [|exact E]. apply in_or_app. right. apply filter_In.
      split; [exact Hr | now apply Z.eqb_eq]. }
  apply in_ids in Hstep as (r & Hr & E). apply in_ids. exists r.
  split; [|exact E]. now apply fold_add_locked_mono.
Qed.

(** The pool is the riders with races, in table order, followed by the
    locked-in riders without races that the loop adds back. *)
Theorem pool_keeps_riders_with_races (rows : list Scored) (locked_in : list Z) :
  exists added,
    candidate_rows rows locked_in
    = filter (fun r : Scored => 0 <? num_races r) rows ++ added /\
    forall x : Scored, In x added ->
      In x rows /\ In (market_rider_id x) locked_in /\ num_races x <= 0.
Proof.
  rewrite candidate_rows_fold.
  set (base := filter (fun r : Scored => 0 <? num_races r) rows).
  apply (fold_add_locked_invariant_in
           (fun c => exists added,
                c = base ++ added /\
                forall x : Scored, In x added ->
                  In x rows /\ In (market_rider_id x) locked_in /\
                  num_races x <= 0)).
  - intros c rid Hrid (added & -> & Hadded). unfold add_locked.
    destruct (has_id rid (base ++ added)) eqn:Hid; cbn [negb];
      [now exists added|].
    exists (added ++ filter (fun r : Scored => market_rider_id r =? rid) rows).
    split; [now rewrite app_assoc|].
    intros x Hx. apply in_app_or in Hx as [Hx|Hx]; [now apply Hadded|].
    apply filter_In in Hx as [Hx E]. apply Z.eqb_eq in E.
    split; [exact Hx|]. split; [now rewrite E|].
    destruct (0 <? num_races x) eqn:Hn; [|now apply Z.ltb_ge].
    exfalso.
    assert (has_id rid (base ++ added) = true) as Hyes; [|congruence].
    apply has_id_In, in_ids. exists x. split; [|exact E].
    apply in_or_app. left. apply filter_In. now split.
  - exists []. split; [now rewrite app_nil_r | intros x []].
Qed.

End PoolShape.

Section NoSolution.

Context {S : Solver} {E : ExactSolver S}.

(** An id of the table that is forced both in and out leaves the integer
    program without any feasible assignment, and an exact solver says so. *)
Theorem contradictory_locks_have_no_solution (rows : list Scored)
    (budget team_size : Z) (locked_in locked_out : list Z) (rid : Z) :
  In rid locked_in -> In rid locked_out -> In rid (ids rows) ->
  (forall a,
     ~ feasible (build_problem (candidate_rows rows locked_in) budget team_size
                               locked_in locked_out) a) /\
  status (solve (build_problem (candidate_rows rows locked_in) budget team_size
                               locked_in locked_out)) = Infeasible.
Proof.
  intros Hin Hout Hrows.
  assert (forall a,
     ~ feasible (build_problem (candidate_rows rows locked_in) budget team_size
                               locked_in locked_out) a) as Hnone.
  { intros a Hf. apply feasible_build in Hf as (_ & _ & _ & H1 & H0).
    rewrite lock_constraints_sat in H1, H0.
    pose proof (locked_id_in_pool rows locked_in rid Hin Hrows) as Hpool.
    destruct (index_of_id rid (candidate_rows rows locked_in)) as [|i rest] eqn:Ei.
    - apply in_ids in Hpool as (r & Hr & Er).
      apply In_nth_error in Hr as [j Hj].
      assert (In j (index_of_id rid (candidate_rows rows locked_in))) as Hj'
        by (apply in_index_of_id; now exists r).
      rewrite Ei in Hj'. destruct Hj'.
    - specialize (H1 rid i rest Hin Ei). specialize (H0 rid i rest Hout Ei).
      destruct (chosen a i); discriminate. }
  split; [exact Hnone | now apply solve_infeasible].
Qed.

End NoSolution.

(** * The summary and the endpoint *)

Section SummaryFacts.

Context {S : Solver}.

Lemma strategy_keys team strategy :
  calculate_kopman_strategy team = Ok strategy -> map fst strategy = races.
Proof.
  rewrite calculate_kopman_strategy_eq. intros H. injection H as <-.
  reflexivity.
Qed.

(** For the roster of a feasible request (exact solver, unique ids) the
    summary reports the requested size and a cost within the budget; what it
    calls the remaining budget is measured against the default budget of
    50,000,000, not against the budget of the request. *)
Theorem summary_of_selected_roster {E : ExactSolver S} (df : DataFrame)
    (rows : list Scored) (budget team_size : Z) (locked_in locked_out : list Z) :
  frame_rows df = Ok rows ->
  NoDup (ids rows) ->
  (exists other,
     incl other (candidate_rows rows locked_in) /\ NoDup (ids other) /\
     roster_ok budget team_size locked_in locked_out other) ->
  exists team strategy,
    optimize_team df budget team_size locked_in locked_out = Ok team /\
    calculate_kopman_strategy team = Ok strategy /\
    Z.of_nat (Summary.team_size (get_team_summary team strategy)) = team_size /\
    Summary.total_cost (get_team_summary team strategy) <= budget /\
    Summary.budget_remaining (get_team_summary team strategy)
    = DEFAULT_BUDGET - Summary.total_cost (get_team_summary team strategy) /\
    DEFAULT_BUDGET - budget
    <= Summary.budget_remaining (get_team_summary team strategy).
Proof.
  intros Hrows ND (other & Hincl & NDo & Hok).
  pose proof (candidate_rows_NoDup rows locked_in ND) as NDc.
  destruct (optimize_team_exact df rows budget team_size locked_in locked_out
              Hrows ND) as (team & Hteam & (Hn & Hb & _) & _).
  { destruct (subset_as_mask _ _ NDc Hincl NDo) as (mask & Hlen & HP).
    exists mask. split; [exact Hlen|].
    now apply (roster_ok_perm _ _ _ _ _ _ (Permutation_sym HP)). }
  exists team. eexists. split; [exact Hteam|].
  split; [apply calculate_kopman_strategy_eq|].
  cbn [get_team_summary Summary.team_size Summary.total_cost
       Summary.budget_remaining].
  unfold price_sum, DEFAULT_BUDGET. repeat split; try assumption; lia.
Qed.

(** The handler behind [/api/optimize] answers every query: it asks for 20
    riders whatever the table, and when fewer than 20 candidates exist no
    assignment is feasible and the roster it reports is shorter than 20. *)
Theorem endpoint_always_answers (df : list Scored) (budget : Z)
    (locked_in locked_out : list Z) :
  exists team strategy,
    optimize_endpoint df budget locked_in locked_out
    = Ok (team, strategy, get_team_summary team strategy) /\
    optimize_team (Enriched df) budget 20 locked_in locked_out = Ok team /\
    map fst strategy = races /\
    Summary.team_size (get_team_summary team strategy) = List.length team /\
    ((List.length (candidate_rows df locked_in) < 20)%nat ->
     (Summary.team_size (get_team_summary team strategy) < 20)%nat /\
     forall a,
       ~ feasible (build_problem (candidate_rows df locked_in) budget 20
                                 locked_in locked_out) a).
Proof.
  destruct (optimize_team_picks (Enriched df) df budget 20 locked_in locked_out
              eq_refl) as (team & mask & Hteam & HP).
  exists team. eexists. unfold optimize_endpoint. rewrite Hteam. cbn [bind].
  rewrite calculate_kopman_strategy_eq. cbn [bind].
  split; [reflexivity|]. split; [reflexivity|].
  split; [apply (strategy_keys team), calculate_kopman_strategy_eq|].
  split; [reflexivity|].
  intros Hshort. cbn [get_team_summary Summary.team_size]. split.
  - rewrite (Permutation_length HP).
    pose proof (pick_length_le mask (candidate_rows df locked_in)). lia.
  - intros a Hf. apply feasible_build in Hf as (_ & Hn & _).
    pose proof (pick_length_le a (candidate_rows df locked_in)). lia.
Qed.

End SummaryFacts.

(** * Further properties of the captaincy strategist *)

Section CaptaincyMore.

Local Open Scope float_scope.

(** On any frame the strategy has one list per catalog race, in catalog
    order, and the list of a race holds each participating rider once, with
    ranks 1, 2, 3, ...; no lookup of a multiplier fails. *)
Theorem strategy_lists_every_participant (team : list Scored) :
  exists strategy,
    calculate_kopman_strategy team = Ok strategy /\
    map fst strategy = races /\
    forall race,
      exists riders,
        strategy_get strategy race = Some riders /\
        Permutation (map rider_id riders)
                    (ids (filter (fun r : Scored => race_ r race) team)) /\
        map rank riders
        = seq 1 (List.length (filter (fun r : Scored => race_ r race) team)).
Proof.
  eexists. split; [apply calculate_kopman_strategy_eq|].
  split; [apply (strategy_keys team), calculate_kopman_strategy_eq|].
  intros race. eexists.
  split; [apply (strategy_get_map
                   (fun x => map (entry_at (fun r => exp_ r x))
                                 (enumerate (ranked team x))))|].
  split.
  - rewrite map_map. cbn [entry_at rider_id].
    rewrite <- (map_map snd (fun r : Scored => market_rider_id r)).
    rewrite enumerate_snd. apply Permutation_map, ranked_perm.
  - rewrite map_map. cbn [entry_at rank].
    rewrite <- (Permutation_length (ranked_perm team race)).
    rewrite <- seq_shift, <- (enumerate_fst (ranked team race)), map_map.
    apply map_ext. intros [i r]. cbn [fst]. lia.
Qed.

(** The boost: on a roster scored by the model every entry's boosted points
    lie between its base points and three times 28. *)
Theorem boost_never_lowers (team : list Scored) (race : race) :
  Forall scored_by_model team ->
  exists riders,
    race_strategy team race = Ok riders /\
    Forall
      (fun e =>
         (base_points e <=? boosted_points e) = true /\
         (boosted_points e <=? 84) = true /\
         ((4 <= rank e)%nat -> boosted_points e = base_points e))
      riders.
Proof.
  intros Hm. rewrite race_strategy_eq. eexists. split; [reflexivity|].
  apply Forall_forall. intros e He.
  apply in_map_iff in He as ([i r] & <- & Hir).
  apply in_enumerate, nth_error_In in Hir.
  pose proof (ranked_tier team race r Hm Hir) as Htier.
  destruct (Nat.ltb i 3) eqn:Hi.
  - apply Nat.ltb_lt in Hi. unfold entry_at.
    cbn [fst snd rank base_points boosted_points].
    assert (Nat.ltb i 3 = true) as -> by (apply Nat.ltb_lt; lia).
    unfold tiers in Htier. cbn [In] in Htier.
    destruct i as [|[|[|i]]]; try lia; cbn [Nat.add rank_multiplier];
      repeat destruct Htier as [Htier|Htier]; try contradiction;
      rewrite <- Htier; repeat split; try reflexivity; intros; lia.
  - apply Nat.ltb_ge in Hi. rewrite (entry_at_late _ i r Hi).
    cbn [rank base_points boosted_points].
    unfold tiers in Htier. cbn [In] in Htier.
    repeat destruct Htier as [Htier|Htier]; try contradiction;
      rewrite <- Htier; repeat split; reflexivity.
Qed.

End CaptaincyMore.

(** * The data loaders *)

Section Loaders.

Lemma insert_desc_int_perm {A : Type} (key : A -> Z) x l :
  Permutation (insert_desc_int key x l) (x :: l).
Proof.
  induction l as [|y l IH]; cbn [insert_desc_int]; [reflexivity|].
  destruct (key y <=? key x); [reflexivity|].
  rewrite IH. apply perm_swap.
Qed.

Lemma sort_int_desc_perm {A : Type} (key : A -> Z) l :
  Permutation (sort_int_desc key l) l.
Proof.
  induction l as [|x l IH]; cbn [sort_int_desc fold_right]; [reflexivity|].
  rewrite insert_desc_int_perm. now constructor.
Qed.

Lemma insert_desc_int_sorted {A : Type} (key : A -> Z) x l :
  StronglySorted (fun a b => key b <= key a) l ->
  StronglySorted (fun a b => key b <= key a) (insert_desc_int key x l).
Proof.
  intros Hs. induction Hs as [|y l Hs IH Hy]; cbn [insert_desc_int].
  - repeat constructor.
  - destruct (key y <=? key x) eqn:Hle.
    + apply Z.leb_le in Hle. constructor; [now constructor|].
      constructor; [exact Hle|].
      rewrite Forall_forall in Hy |- *. intros z Hz. specialize (Hy z Hz). lia.
    + apply Z.leb_gt in Hle. constructor; [exact IH|].
      rewrite Forall_forall in Hy |- *. intros z Hz.
      apply (Permutation_in _ (insert_desc_int_perm key x l)) in Hz as [<-|Hz];
        [lia | now apply Hy].
Qed.

Lemma sort_int_desc_sorted {A : Type} (key : A -> Z) l :
  StronglySorted (fun a b => key b <= key a) (sort_int_desc key l).
Proof.
  induction l as [|x l IH]; cbn [sort_int_desc fold_right]; [constructor|].
  now apply insert_desc_int_sorted.
Qed.

(** The loaded frame holds each row of the sheet once, most expensive
    first; a rider priced 0 gets [price_m] 0.0 and so a value score of 0.0,
    and a race whose column the sheet lacks is a race not ridden. *)
Theorem loaded_frame_by_descending_price (raw : list RawRow) :
  Permutation (load_enriched_data raw) (map clean_row raw) /\
  StronglySorted (fun a b : Rider => price b <= price a)
                 (load_enriched_data raw) /\
  (forall row, In row (load_enriched_data raw) -> price row = 0 ->
     calculate_value_score row = Ok 0.0%float) /\
  (forall r race, In r raw -> race_cell r race = None ->
     race_ (clean_row r) race = false /\
     calculate_expected_points (clean_row r) race = 0.0%float).
Proof.
  split; [apply sort_int_desc_perm|].
  split; [apply sort_int_desc_sorted|]. split.
  - intros row Hin Hp.
    apply (Permutation_in _ (sort_int_desc_perm price (map clean_row raw))) in Hin.
    apply in_map_iff in Hin as (r & <- & _).
    rewrite calculate_value_score_ok. cbn [clean_row price price_m] in *.
    rewrite Hp. reflexivity.
  - intros r race _ Hcell.
    assert (race_ (clean_row r) race = false) as Hf
      by (cbn [clean_row race_]; now rewrite Hcell).
    split; [exact Hf | now apply calculate_expected_points_absent].
Qed.

Lemma QUALITY_MAP_code t q : QUALITY_MAP t = Some q <-> t = quality_code q.
Proof.
  split.
  - intros H. destruct t as [|p|p]; cbn in H;
      [injection H as <-; reflexivity | | discriminate H].
    do 3 (try destruct p as [p|p|]; cbn in H;
          try discriminate H; try (injection H as <-; reflexivity)).
  - intros ->. now destruct q.
Qed.

Lemma quality_eqb_eq a b : quality_eqb a b = true <-> a = b.
Proof.
  split; [destruct a, b; (reflexivity || discriminate) | intros ->; now destruct b].
Qed.

Lemma parse_qualities_snoc qualities q :
  parse_qualities (qualities ++ [q])
  = match QUALITY_MAP (fst q) with
    | Some q_name => set_quality (parse_qualities qualities) q_name (snd q)
    | None => parse_qualities qualities
    end.
Proof. unfold parse_qualities. now rewrite fold_left_app. Qed.

(** A quality cell is the value of the last entry carrying its type code,
    0 when there is none; entries of an unknown type change nothing. *)
Theorem parsed_quality_is_last_entry (qualities : list (Z * Z)) (q : quality) :
  parse_qualities qualities q
  = match find (fun entry => fst entry =? quality_code q) (rev qualities) with
    | Some entry => snd entry
    | None => 0
    end.
Proof.
  induction qualities as [|entry qualities IH] using rev_ind; [reflexivity|].
  rewrite parse_qualities_snoc, rev_app_distr. cbn [rev app find].
  destruct (fst entry =? quality_code q) eqn:Hc.
  - apply Z.eqb_eq in Hc.
    rewrite (proj2 (QUALITY_MAP_code _ _) Hc). unfold set_quality.
    now rewrite (proj2 (quality_eqb_eq q q) eq_refl).
  - destruct (QUALITY_MAP (fst entry)) as [q'|] eqn:Hm; [|exact IH].
    unfold set_quality. destruct (quality_eqb q q') eqn:Hq; [|exact IH].
    apply quality_eqb_eq in Hq. subst q'.
    apply QUALITY_MAP_code in Hm. apply Z.eqb_neq in Hc. contradiction.
Qed.

End Loaders.

(** * The team builder *)

Section BuilderFacts.

Import Builder.
Context {S : Solver}.

Lemma in_team_In rid l : in_team rid l = true <-> In rid l.
Proof.
  unfold in_team. rewrite existsb_exists. split.
  - intros (x & Hx & E). apply Z.eqb_eq in E. now subst.
  - intros H. exists rid. split; [exact H | apply Z.eqb_refl].
Qed.

Lemma list_remove_spec rid l l' :
  list_remove rid l = Some l' ->
  NoDup l -> NoDup l' /\ incl l' l /\ ~ In rid l' /\
             List.length l = Datatypes.S (List.length l').
Proof.
  revert l'. induction l as [|x l IH]; intros l' H ND; [discriminate|].
  inversion ND as [|? ? Hx ND']; subst. cbn [list_remove] in H.
  destruct (x =? rid) eqn:E.
  - injection H as <-. apply Z.eqb_eq in E. subst x.
    repeat split; auto using incl_tl, incl_refl.
  - destruct (list_remove rid l) as [t|] eqn:Er; [|discriminate].
    injection H as <-. destruct (IH t eq_refl ND') as (NDt & Hincl & Hn & Hlen).
    apply Z.eqb_neq in E. repeat split.
    + constructor; [|exact NDt]. intros Hin. now apply Hx, Hincl.
    + intros y [<-|Hy]; [now left | right; now apply Hincl].
    + intros [Hin|Hin]; [congruence | contradiction].
    + cbn [List.length]. now rewrite Hlen.
Qed.

Lemma manual_team_length df team_ids :
  NoDup (ids df) -> NoDup team_ids -> incl team_ids (ids df) ->
  List.length (manual_team df team_ids) = List.length team_ids.
Proof.
  intros NDdf ND Hincl.
  rewrite <- (length_map (fun r : Scored => market_rider_id r)).
  apply Permutation_length, NoDup_Permutation.
  - now apply (NoDup_ids_filter _ df).
  - exact ND.
  - intros rid. fold (ids (manual_team df team_ids)). rewrite in_ids. split.
    + intros (r & Hr & <-). apply filter_In in Hr as [_ Hr].
      now apply in_team_In.
    + intros Hrid. pose proof (Hincl rid Hrid) as Hdf.
      apply in_ids in Hdf as (r & Hr & Er). exists r. split; [|exact Er].
      apply filter_In. split; [exact Hr|]. apply in_team_In. now rewrite Er.
Qed.

Lemma session_ok_intro df team_ids opt :
  NoDup team_ids -> incl team_ids (ids df) ->
  (forall team, opt = Some team -> NoDup (ids team) /\ incl team df) ->
  session_ok df {| manual_team_ids := team_ids; opt_team := opt |}.
Proof.
  intros H1 H2 H3. unfold session_ok. cbn [manual_team_ids opt_team].
  split; [exact H1|]. split; [exact H2 | exact H3].
Qed.

Lemma optimised_roster_ok df budget team :
  NoDup (ids df) ->
  optimize_team (Enriched df) budget 20 [] [] = Ok team ->
  NoDup (ids team) /\ incl team df.
Proof.
  intros NDdf Ho.
  destruct (optimize_team_picks (Enriched df) df budget 20 [] [] eq_refl)
    as (team' & mask & Hteam & HP).
  rewrite Ho in Hteam. injection Hteam as <-. split.
  - apply (Permutation_NoDup (l := ids (pick mask (candidate_rows df [])))).
    + unfold ids. apply Permutation_map. now symmetry.
    + now apply pick_NoDup_ids, candidate_rows_NoDup.
  - intros r Hr. apply (Permutation_in _ HP), pick_incl in Hr.
    now apply (candidate_rows_incl df []).
Qed.

Lemma ids_incl (l df : list Scored) : incl l df -> incl (ids l) (ids df).
Proof.
  intros H rid Hrid. apply in_ids in Hrid as (r & Hr & Er).
  apply in_ids. exists r. split; [now apply H | exact Er].
Qed.

Lemma step_keeps_session_ok df st c st' :
  NoDup (ids df) -> session_ok df st -> step df st c = Some st' ->
  session_ok df st'.
Proof.
  intros NDdf (ND & Hincl & Hopt) Hstep. destruct c; cbn [step] in Hstep.
  - destruct (optimize_team (Enriched df) budget 20 [] []) as [team|e] eqn:Ho;
      [|discriminate].
    injection Hstep as <-. apply session_ok_intro; [exact ND | exact Hincl|].
    intros team' Ht. injection Ht as <-. now apply (optimised_roster_ok df budget).
  - destruct (has_id rid df) eqn:Hdf; [|discriminate].
    destruct (in_team rid (manual_team_ids st)) eqn:Hin; [discriminate|].
    injection Hstep as <-.
    assert (~ In rid (manual_team_ids st)) as Hn
      by (intros H; apply in_team_In in H; congruence).
    apply session_ok_intro; [| |exact Hopt].
    + apply NoDup_app; [exact ND | repeat constructor; intros [] |].
      intros x Hx [<-|[]]. contradiction.
    + apply incl_app; [exact Hincl|]. intros x [<-|[]]. now apply has_id_In.
  - destruct (has_id rid df && in_team rid (manual_team_ids st)); [|discriminate].
    destruct (list_remove rid (manual_team_ids st)) as [l|] eqn:Hr; [|discriminate].
    injection Hstep as <-.
    destruct (list_remove_spec _ _ _ Hr ND) as (NDl & Hl & _).
    apply session_ok_intro; [exact NDl | | exact Hopt].
    intros x Hx. now apply Hincl, Hl.
  - destruct (Nat.ltb 0 (List.length (manual_team df (manual_team_ids st))));
      [|discriminate].
    destruct (opt_team st) as [team|] eqn:Ho.
    + injection Hstep as <-. destruct (Hopt team eq_refl) as [NDt Ht].
      apply session_ok_intro; [exact NDt | now apply ids_incl|].
      intros team' E. injection E as <-. now split.
    + injection Hstep as <-. split; [exact ND|]. split; [exact Hincl|].
      intros team E. rewrite Ho in E. discriminate.
  - destruct (manual_team_ids st) as [|x l] eqn:El; [discriminate|].
    injection Hstep as <-.
    apply session_ok_intro; [constructor | intros y [] | exact Hopt].
Qed.

Lemma reachable_session_ok df st :
  NoDup (ids df) -> reachable df st -> session_ok df st.
Proof.
  intros NDdf Hreach. induction Hreach as [|st c st' _ IH Hstep].
  - apply session_ok_intro; [constructor | intros x [] | discriminate].
  - exact (step_keeps_session_ok df st c st' NDdf IH Hstep).
Qed.

(** Whatever is clicked, the ids picked by hand stay riders of the table
    with no id twice, and the counter of riders the page shows equals the
    number of rows of the manual team. *)
Theorem builder_keeps_distinct_riders (df : list Scored) (st : Session) :
  NoDup (ids df) ->
  reachable df st ->
  NoDup (manual_team_ids st) /\
  incl (manual_team_ids st) (ids df) /\
  List.length (manual_team df (manual_team_ids st))
  = List.length (manual_team_ids st).
Proof.
  intros NDdf Hreach.
  destruct (reachable_session_ok df st NDdf Hreach) as (ND & Hincl & _).
  split; [exact ND|]. split; [exact Hincl|]. now apply manual_team_length.
Qed.

(** Loading the optimal roster is offered only while the manual team holds
    a rider; when it is clicked with a roster stored, the manual team
    becomes that roster, rider for rider. *)
Theorem loading_the_optimal_roster (df : list Scored) (st : Session) :
  NoDup (ids df) ->
  reachable df st ->
  (manual_team_ids st = [] -> step df st LaadOptimaal = None) /\
  (forall st' team,
     step df st LaadOptimaal = Some st' -> opt_team st = Some team ->
     manual_team_ids st' = ids team /\
     Permutation (manual_team df (manual_team_ids st')) team).
Proof.
  intros NDdf Hreach.
  destruct (reachable_session_ok df st NDdf Hreach) as (ND & Hincl & Hopt).
  split.
  - intros E. cbn [step]. rewrite E.
    replace (manual_team df []) with (@nil Scored); [reflexivity|].
    unfold manual_team. symmetry. apply filter_none. reflexivity.
  - intros st' team Hstep Ho. cbn [step] in Hstep.
    destruct (Nat.ltb 0 (List.length (manual_team df (manual_team_ids st))));
      [|discriminate].
    rewrite Ho in Hstep. injection Hstep as <-. cbn [manual_team_ids].
    split; [reflexivity|].
    destruct (Hopt team Ho) as [NDt Ht].
    apply NoDup_Permutation.
    + apply NoDup_filter. unfold ids in NDdf. now apply NoDup_map_inv in NDdf.
    + unfold ids in NDt. now apply NoDup_map_inv in NDt.
    + intros x. unfold manual_team. rewrite filter_In. split.
      * intros [Hx Hin]. apply in_team_In in Hin.
        change (map (fun r : Scored => market_rider_id r) team) with (ids team) in Hin.
        apply in_ids in Hin as (y & Hy & Ey).
        now rewrite <- (same_id_same_row df y x NDdf (Ht y Hy) Hx Ey).
      * intros Hx. split; [now apply Ht|]. apply in_team_In.
        change (map (fun r : Scored => market_rider_id r) team) with (ids team).
        apply in_ids. now exists x.
Qed.

End BuilderFacts.

(** * The scored frame *)

Section EnrichedFrame.

Local Open Scope float_scope.

Lemma half_in_season k :
  (0 <= k <= 952)%Z -> (0 <=? half k) = true /\ (half k <=? 476) = true.
Proof.
  intros Hk.
  assert (forallb (fun k => (0 <=? half k) && (half k <=? 476)) (Zrange 953)
          = true) as H by (vm_compute; reflexivity).
  rewrite forallb_forall in H. apply andb_true_iff, H, in_Zrange.
  change (Z.of_nat 953) with 953%Z. lia.
Qed.

Lemma mapM_rows {A B : Type} (f : A -> result B) (P : A -> B -> Prop) l :
  (forall a, exists b, f a = Ok b /\ P a b) ->
  exists bs, mapM f l = Ok bs /\ Forall2 P l bs.
Proof.
  intros H. induction l as [|a l (bs & E & HF)].
  - exists []. split; [reflexivity | constructor].
  - destruct (H a) as (b & Eb & Pb). exists (b :: bs).
    cbn [mapM]. rewrite Eb, E. split; [reflexivity | now constructor].
Qed.

(** [enrich_with_scores] returns on every table, whatever the prices: one
    scored row per rider, in table order and with the input columns
    untouched; the per-event columns are the projected points, the total is
    a number between 0 and 476, and the value column is what
    [calculate_value_score] returns. *)
Theorem enriched_frame (table : list Rider) :
  exists rows,
    enrich_with_scores table = Ok rows /\
    Forall2
      (fun (row : Rider) (s : Scored) =>
         rider s = row /\
         (forall race, exp_ s race = calculate_expected_points row race) /\
         (0 <=? exp_total s) = true /\ (exp_total s <=? 476) = true /\
         calculate_value_score row = Ok (value_score s))
      table rows.
Proof.
  unfold enrich_with_scores. apply mapM_rows. intros row.
  unfold enrich_row. rewrite calculate_value_score_ok. cbn [bind].
  eexists. split; [reflexivity|].
  cbn [rider exp_ exp_total value_score].
  split; [reflexivity|]. split; [reflexivity|].
  change (sum_exp_cols (fun race => calculate_expected_points row race))
    with (calculate_total_expected_points row).
  rewrite total_half.
  pose proof (Zsum_half_points_bounds
                (fun r => half_points (calculate_race_score row r)) races
                (fun r => half_points_tier _)) as B.
  change (Z.of_nat (List.length races)) with 17%Z in B.
  destruct (half_in_season
              (Zsum (map (fun r => half_points (calculate_race_score row r)) races)))
    as [H0 H1]; [lia|].
  split; [exact H0|]. split; [exact H1 | reflexivity].
Qed.

End EnrichedFrame.

(** ** The further properties on the example tables *)

Section OnExamplesMore.

Import Tables Squad Builder Sessions.

Local Open Scope float_scope.

Lemma expected_points_monotone_witness :
  (calculate_race_score (classics_rider 14 2 2) omloop
   <=? calculate_race_score (classics_rider 15 8 8) ronde_van_vlaanderen) = true /\
  (calculate_expected_points (classics_rider 14 2 2) omloop
   <=? calculate_expected_points (classics_rider 15 8 8) ronde_van_vlaanderen)
  = true.
Proof.
  assert ((calculate_race_score (classics_rider 14 2 2) omloop
           <=? calculate_race_score (classics_rider 15 8 8)
                 ronde_van_vlaanderen) = true) as H
    by (vm_compute; reflexivity).
  split; [exact H|].
  exact (expected_points_monotone (classics_rider 14 2 2)
           (classics_rider 15 8 8) omloop ronde_van_vlaanderen H).
Defined.

Lemma better_ratings_never_score_less_witness :
  (forall q, (0 <= q_ (classics_rider 11 6 4) q)%Z /\
             (q_ (classics_rider 11 6 4) q <= q_ (classics_rider 12 10 10) q)%Z /\
             (q_ (classics_rider 12 10 10) q <= 10)%Z) /\
  (calculate_expected_points (classics_rider 11 6 4) ronde_van_vlaanderen
   <=? calculate_expected_points (classics_rider 12 10 10) ronde_van_vlaanderen)
  = true.
Proof.
  assert (forall q, (0 <= q_ (classics_rider 11 6 4) q)%Z /\
                    (q_ (classics_rider 11 6 4) q
                     <= q_ (classics_rider 12 10 10) q)%Z /\
                    (q_ (classics_rider 12 10 10) q <= 10)%Z) as H
    by (intros q; destruct q; cbn [classics_rider q_]; lia).
  split; [exact H|].
  exact (better_ratings_never_score_less (classics_rider 11 6 4)
           (classics_rider 12 10 10) ronde_van_vlaanderen H (fun e => e)).
Defined.

Lemma starter_scores_unless_unrated_witness :
  ((calculate_expected_points (classics_rider 11 6 4) omloop =? 0) = true <->
   q_ (classics_rider 11 6 4) q_cobbles = 0%Z /\
   secondary_cell (classics_rider 11 6 4)
                  (Mapping q_cobbles (Some q_hill) (Some 0.7)) = 0%Z) /\
  ((calculate_expected_points (classics_rider 11 6 4) omloop =? 0) = false ->
   (0.5 <=? calculate_expected_points (classics_rider 11 6 4) omloop) = true).
Proof.
  apply (starter_scores_unless_unrated (classics_rider 11 6 4) omloop
           (Mapping q_cobbles (Some q_hill) (Some 0.7))).
  - intros q; destruct q; cbn [classics_rider q_]; lia.
  - reflexivity.
  - reflexivity.
Defined.

Local Close Scope float_scope.

Lemma roster_in_descending_order_witness :
  exists team,
    optimize_team (S := Exhaustive.solver) (Plain peloton) 50000000 2 [] []
    = Ok team /\
    StronglySorted (descending exp_total) team.
Proof.
  apply (roster_in_descending_order (S := Exhaustive.solver) (Plain peloton)
           (map scored peloton) 50000000 2 [] []).
  - vm_compute; reflexivity.
  - left. exists peloton. reflexivity.
Defined.

Lemma roster_is_a_set_of_candidates_witness :
  exists team,
    optimize_team (S := Exhaustive.solver) (Enriched trio) 45000000 2 [3] []
    = Ok team /\
    NoDup (ids team) /\
    incl team trio /\
    (forall r : Scored, In r team ->
       0 < num_races r \/ In (market_rider_id r) [3]) /\
    (List.length team <= List.length (candidate_rows trio [3%Z]))%nat.
Proof.
  apply (roster_is_a_set_of_candidates (S := Exhaustive.solver) (Enriched trio)
           trio 45000000 2 [3] []).
  - reflexivity.
  - exact trio_ids_NoDup.
Defined.

Lemma contradictory_locks_have_no_solution_witness :
  In 1 (ids trio) /\
  status (solve (Solver := Exhaustive.solver)
            (build_problem (candidate_rows trio [1]) 45000000 2 [1] [1]))
  = Infeasible.
Proof.
  assert (In 1 (ids trio)) as H by (now left).
  split; [exact H|].
  exact (proj2 (contradictory_locks_have_no_solution
                  (S := Exhaustive.solver) (E := ExhaustiveFacts.exact)
                  trio 45000000 2 [1] [1] 1
                  (or_introl eq_refl) (or_introl eq_refl) H)).
Defined.

Lemma summary_of_selected_roster_witness :
  exists team strategy,
    optimize_team (S := Exhaustive.solver) (Enriched trio) 45000000 2 [] []
    = Ok team /\
    calculate_kopman_strategy team = Ok strategy /\
    Z.of_nat (Summary.team_size (get_team_summary team strategy)) = 2 /\
    Summary.total_cost (get_team_summary team strategy) <= 45000000 /\
    Summary.budget_remaining (get_team_summary team strategy)
    = DEFAULT_BUDGET - Summary.total_cost (get_team_summary team strategy) /\
    DEFAULT_BUDGET - 45000000
    <= Summary.budget_remaining (get_team_summary team strategy).
Proof.
  apply (summary_of_selected_roster (S := Exhaustive.solver)
           (E := ExhaustiveFacts.exact) (Enriched trio) trio 45000000 2 [] []).
  - reflexivity.
  - exact trio_ids_NoDup.
  - exists [row 1 30000000 5 50.0; row 2 15000000 4 30.0].
    split; [|split].
    + rewrite trio_candidates. intros x [<-|[<-|[]]]; cbn [trio In]; auto.
    + change (NoDup [1; 2]). repeat constructor; cbn [In]; intuition discriminate.
    + repeat split; cbn; try lia; tauto.
Defined.

Lemma boost_never_lowers_witness :
  exists riders,
    race_strategy squad ronde_van_vlaanderen = Ok riders /\
    Forall
      (fun e =>
         PrimFloat.leb (base_points e) (boosted_points e) = true /\
         PrimFloat.leb (boosted_points e) 84 = true /\
         ((4 <= rank e)%nat -> boosted_points e = base_points e))
      riders.
Proof.
  exact (boost_never_lowers squad ronde_van_vlaanderen squad_scored).
Defined.

Lemma run_reachable {S : Solver} (df : list Scored) clicks st st' :
  reachable df st -> run df st clicks = Some st' -> reachable df st'.
Proof.
  unfold run. revert st. induction clicks as [|c clicks IH]; intros st Hr H.
  - injection H as <-. exact Hr.
  - cbn [fold_left] in H. destruct (step df st c) as [s|] eqn:E.
    + exact (IH s (reach_step df st c s Hr E) H).
    + exfalso. clear -H. induction clicks as [|c' clicks IH'];
        [discriminate | exact (IH' H)].
Qed.

Lemma twenty_ids_NoDup : NoDup (ids twenty).
Proof.
  change (ids twenty) with (map Z.of_nat (seq 1 20)).
  apply Finite.Injective_map_NoDup; [intros x y; lia | apply seq_NoDup].
Qed.

(** The optimiser's button at 50M, then rider 3 added by hand. *)
Lemma twenty_session_reachable :
  reachable (S := Exhaustive.solver) twenty twenty_session.
Proof.
  apply (run_reachable (S := Exhaustive.solver) twenty
           [Optimaliseer 50000000; Toevoegen 3] initial).
  - apply reach_initial.
  - vm_cast_no_check (@eq_refl (option Session) (Some twenty_session)).
Qed.

Lemma builder_keeps_distinct_riders_witness :
  NoDup (manual_team_ids twenty_session) /\
  incl (manual_team_ids twenty_session) (ids twenty) /\
  List.length (manual_team twenty (manual_team_ids twenty_session))
  = List.length (manual_team_ids twenty_session).
Proof.
  exact (builder_keeps_distinct_riders (S := Exhaustive.solver) twenty
           twenty_session twenty_ids_NoDup twenty_session_reachable).
Defined.

(** Before any rider is picked the button is not offered; with rider 3
    picked and the roster of twenty stored, the click makes the manual team
    that roster. *)
Lemma loading_the_optimal_roster_witness :
  step (S := Exhaustive.solver) twenty initial LaadOptimaal = None /\
  List.length twenty_roster = 20%nat /\
  exists st',
    step (S := Exhaustive.solver) twenty twenty_session LaadOptimaal
    = Some st' /\
    manual_team_ids st'
    = [20; 19; 18; 17; 16; 15; 14; 13; 12; 11; 10; 9; 8; 7; 6; 5; 4; 3; 2; 1] /\
    manual_team_ids st' = ids twenty_roster /\
    Permutation (manual_team twenty (manual_team_ids st')) twenty_roster.
Proof.
  split; [|split; [reflexivity|]].
  - exact (proj1 (loading_the_optimal_roster (S := Exhaustive.solver) twenty
                    initial twenty_ids_NoDup (reach_initial twenty))
                 eq_refl).
  - exists {| manual_team_ids := ids twenty_roster;
              opt_team := Some twenty_roster |}.
    split; [reflexivity|]. split; [reflexivity|].
    exact (proj2 (loading_the_optimal_roster (S := Exhaustive.solver) twenty
                    twenty_session twenty_ids_NoDup twenty_session_reachable)
                 {| manual_team_ids := ids twenty_roster;
                    opt_team := Some twenty_roster |}
                 twenty_roster eq_refl eq_refl).
Defined.

End OnExamplesMore.

(** * The step function against the design's table *)

Section DesignTable.

Import Squad.

Lemma agrees_with_design_ok : agrees_with_design = true.
Proof. vm_compute. reflexivity. Qed.

Lemma weights_in_tenths_ok : weights_in_tenths = true.
Proof. vm_compute. reflexivity. Qed.

(** C3: the code departs from the claim.  In the Brabantse Pijl (hill and
    punch, weight 0.5) a starter rated 3 and 3 has race_score exactly 1.5
    and the table gives 2.0 points, but the double the code computes is
    below 1.5 and the code returns 0.5; rated 6 and 6 the race_score is
    exactly 3, the table gives 7.0 and the code returns 2.0. *)
Theorem tier_boundary_lost_in_rounding :
  (design_race_score brabantse_pijl 3 3 == 3 # 2)%Q /\
  (design_points (design_race_score brabantse_pijl 3 3) == 2)%Q /\
  PrimFloat.ltb (calculate_race_score (puncheur 21 3 3) brabantse_pijl) 1.5
  = true /\
  calculate_expected_points (puncheur 21 3 3) brabantse_pijl = 0.5%float /\
  (design_race_score brabantse_pijl 6 6 == 3)%Q /\
  (design_points (design_race_score brabantse_pijl 6 6) == 7)%Q /\
  PrimFloat.ltb (calculate_race_score (puncheur 22 6 6) brabantse_pijl) 3
  = true /\
  calculate_expected_points (puncheur 22 6 6) brabantse_pijl = 2.0%float.
Proof. repeat split; vm_compute; reflexivity. Qed.

(** Everywhere else on the scale the code gives the points of the design's
    table at the exact race_score: for a starter with ratings from 0 to 10,
    in every event, but for the two pairs of ratings in the Brabantse Pijl
    whose race_score is a breakpoint lost in rounding. *)
Theorem table_holds_off_the_lost_boundary (row : Rider) (r : race) (m : mapping) :
  (forall q, 0 <= q_ row q <= 10) ->
  race_ row r = true ->
  RACE_QUALITY_MAP r = Some m ->
  on_lost_boundary r (q_ row (primary m)) (secondary_cell row m) = false ->
  (F2Q (calculate_expected_points row r)
   == design_points
        (design_race_score r (q_ row (primary m)) (secondary_cell row m)))%Q.
Proof.
  intros Hq Hs Hm Hoff. rewrite (starter_points _ _ _ Hs Hm).
  pose proof (grid_points_tier m (q_ row (primary m)) (secondary_cell row m))
    as Ht.
  rewrite F2Q_half
    by (unfold half_tiers in Ht; cbn [In] in Ht; lia).
  pose proof agrees_with_design_ok as H. unfold agrees_with_design in H.
  rewrite forallb_forall in H. specialize (H r (races_complete r)).
  rewrite Hm in H. rewrite forallb_forall in H.
  specialize (H _ (in_grid _ (Hq (primary m)))).
  rewrite forallb_forall in H.
  specialize (H _ (secondary_cell_grid row m Hq)).
  assert (unread_secondary m (secondary_cell row m) = false) as Hread
    by (unfold unread_secondary, secondary_cell; now destruct (secondary m)).
  rewrite Hread, Hoff in H. cbn [orb] in H. now apply Qeq_bool_iff in H.
Qed.

Lemma table_holds_off_the_lost_boundary_witness :
  (forall q, 0 <= q_ (puncheur 23 5 5) q <= 10) /\
  on_lost_boundary brabantse_pijl 5 5 = false /\
  (design_race_score brabantse_pijl 5 5 == 5 # 2)%Q /\
  (F2Q (calculate_expected_points (puncheur 23 5 5) brabantse_pijl)
   == design_points (design_race_score brabantse_pijl 5 5))%Q.
Proof.
  assert (forall q, 0 <= q_ (puncheur 23 5 5) q <= 10) as H
    by (intros q; destruct q; cbn [puncheur q_]; lia).
  split; [exact H|]. split; [reflexivity|]. split; [reflexivity|].
  exact (table_holds_off_the_lost_boundary (puncheur 23 5 5) brabantse_pijl
           (Mapping q_hill (Some q_punch) (Some 0.5%float)) H
           eq_refl eq_refl eq_refl).
Defined.

End DesignTable.
